(** * Illinois Budget Calculator v2: aggregation and adjustment model

    A shallow embedding of [il_budget_v2.py]: the loader [load_data], the
    grouped frame and its derived columns, the two adjustment dictionaries
    filled by the widget loops of the two tabs, the totals computed from
    them and the adjustment log.

    Numbers.  The script computes with doubles.  The embedding comes twice.
    The first one has exact rationals ([Qc]) for amounts and percentages, a
    NaN cell being [None] and a quotient by 0 being [None]; it carries the
    properties in which rounding has no part: which rows are kept, which
    entry is looked up, which expression a row is added with, orders between
    sums of terms that are at least 0.  The second one, [Double], runs the
    same lines on primitive doubles; it shows on given sheets what the
    script returns where rounding decides.  The identities that hold for
    exact sums only are marked as such. *)

From Stdlib Require Import QArith Qcanon.
From Stdlib Require Import Floats.
From stdpp Require Import base option numbers list sorting strings gmap fin_maps.

Local Open Scope Qc_scope.

(** ** Numbers *)

Notation "'100'" := (Qc_of_Z 100) : Qc_scope.

Definition million : Qc := Qc_of_Z 1000000.

(** [Series.sum()] on a list of values. *)
Definition Qsum (l : list Qc) : Qc := foldr Qcplus 0 l.

(** pandas sums skip NaN entries ([skipna=True]); a sum of nothing is 0. *)
Definition nansum (l : list (option Qc)) : Qc := Qsum (omap id l).

(** Float division where the quotient is a finite number. *)
Definition fdiv (x y : Qc) : option Qc :=
  if decide (y = 0) then None else Some (x / y).

(** ** Load Data *)

(** A cell of the amount column as [pd.read_excel] returns it: a blank cell
    (NaN), a number, or text. *)
Inductive cell : Type :=
  | NA
  | Num (x : Qc)
  | Str (s : string).

(** One row of the sheet; a blank name cell is [None]. *)
Record raw_row : Type := RawRow {
  raw_category : option string;   (* 'Fund Category Name' *)
  raw_fund : option string;       (* 'Fund Name' *)
  raw_approp : cell               (* 'FY25 Act Approp' *)
}.

(** A row that passed [dropna]: no cell of the three columns is blank. *)
Record kept_row : Type := KeptRow {
  kept_category : string;
  kept_fund : string;
  kept_approp : cell
}.

(** A row of [df] as [load_data] returns it. *)
Record row : Type := Row {
  category : string;              (* 'Fund Category Name' *)
  fund : string;                  (* 'Fund Name' *)
  approp : option Qc;             (* 'FY25 Act Approp', NaN is None *)
  approp_m : option Qc            (* 'FY25 Act Approp (M)' *)
}.

(** [df.dropna(subset=[...])]: a row is kept when none of the three cells is
    missing. *)
Definition dropna_row (r : raw_row) : option kept_row :=
  match raw_category r, raw_fund r, raw_approp r with
  | Some c, Some f, Num x => Some (KeptRow c f (Num x))
  | Some c, Some f, Str s => Some (KeptRow c f (Str s))
  | _, _, _ => None
  end.

Definition dropna (df : list raw_row) : list kept_row := omap dropna_row df.

Section Loader.
(** How [pd.to_numeric] reads a piece of text: [None] when the text is not
    a number. *)
Variable str_to_num : string → option Qc.

(** [pd.to_numeric(_, errors='coerce')] on one cell. *)
Definition to_numeric (c : cell) : option Qc :=
  match c with
  | NA => None
  | Num x => Some x
  | Str s => str_to_num s
  end.

Definition load_row (r : kept_row) : row :=
  let a := to_numeric (kept_approp r) in
  Row (kept_category r) (kept_fund r) a ((λ x, x / million) <$> a).

(** [load_data]: drop the incomplete rows, then coerce the amount, then
    derive the column in millions. *)
Definition load_data (xlsx : list raw_row) : list row :=
  load_row <$> dropna xlsx.
End Loader.

(** A reader of plain decimal numerals, enough to run the loader on sheets
    whose text cells are either such numerals or not numbers at all. *)
Fixpoint digits_value (acc : Z) (s : string) : option Z :=
  match s with
  | EmptyString => Some acc
  | String a s' =>
      let n := Ascii.nat_of_ascii a in
      if decide (48 ≤ n ≤ 57)%nat
      then digits_value (10 * acc + Z.of_nat (n - 48)) s'
      else None
  end.

Definition read_numeral (s : string) : option Qc :=
  match s with
  | EmptyString => None
  | _ => Qc_of_Z <$> digits_value 0 s
  end.

(** Define fund categories considered revenue-generating *)
Definition revenue_fund_cats : list string :=
  ["General Funds"; "Highway Funds"; "Special State Funds";
   "Federal Trust Funds"]%string.

(** ** Preprocess for Treemap and Adjustments *)

(** A row of [grouped_df]: the two keys and the summed column. *)
Record grow : Type := GRow {
  g_category : string;
  g_fund : string;
  g_approp_m : Qc
}.

Definition key : Type := string * string.

Definition row_key (r : row) : key := (category r, fund r).
Definition grow_key (r : grow) : key := (g_category r, g_fund r).

(** [Series.unique()]: the distinct values in order of first appearance. *)
Fixpoint unique {A} `{EqDecision A} (l : list A) : list A :=
  match l with
  | [] => []
  | x :: l' => x :: filter (λ y, y ≠ x) (unique l')
  end.

(** Group keys are sorted lexicographically, strings by code point. *)
Definition key_leb (k1 k2 : key) : bool :=
  match String.compare k1.1 k2.1 with
  | Lt => true
  | Gt => false
  | Eq => String.leb k1.2 k2.2
  end.

Definition key_le (k1 k2 : key) : Prop := key_leb k1 k2.

Global Instance key_le_dec : RelDecision key_le.
Proof. intros k1 k2. unfold key_le. apply _. Defined.

Definition group_keys (df : list row) : list key :=
  merge_sort key_le (unique (row_key <$> df)).

(** The sum of one group; NaN amounts are skipped, so a group of NaN
    amounts only sums to 0. *)
Definition group_sum (df : list row) (k : key) : Qc :=
  nansum (approp_m <$> filter (λ r, row_key r = k) df).

(** [df.groupby([...], as_index=False).agg({'FY25 Act Approp (M)': 'sum'})] *)
Definition groupby_sum (df : list row) : list grow :=
  (λ k, GRow k.1 k.2 (group_sum df k)) <$> group_keys df.

Definition total_appropriation (gdf : list grow) : Qc :=
  Qsum (g_approp_m <$> gdf).

(** Column 'Category Total': [transform('sum')] within the category. *)
Definition category_total (gdf : list grow) (c : string) : Qc :=
  Qsum (g_approp_m <$> filter (λ r, g_category r = c) gdf).

(** Column 'Category % of Total' *)
Definition category_pct_of_total (gdf : list grow) (c : string) : option Qc :=
  (λ q, q * 100) <$> fdiv (category_total gdf c) (total_appropriation gdf).

(** Column 'Fund % of Category' *)
Definition fund_pct_of_category (gdf : list grow) (r : grow) : option Qc :=
  (λ q, q * 100) <$> fdiv (g_approp_m r) (category_total gdf (g_category r)).

(** The categories of the grouped frame, as the widget loop walks them. *)
Definition categories (gdf : list grow) : list string :=
  unique (g_category <$> gdf).

(** [grouped_df[grouped_df['Fund Category Name'] == category]['Fund Name'].unique()] *)
Definition funds_of (gdf : list grow) (c : string) : list string :=
  unique (g_fund <$> filter (λ r, g_category r = c) gdf).

(** The sum of a list of shares; undefined as soon as one share is. *)
Fixpoint sum_shares (l : list (option Qc)) : option Qc :=
  match l with
  | [] => Some 0
  | o :: l' => x ← o; s ← sum_shares l'; Some (x + s)
  end.

(** ** Interactive Adjustments UI *)

(** [st.session_state]: the value held for each widget key. *)
Abbreviation session := (gmap string Qc).

(** [st.number_input(..., value=value, key=key)]: the value the session
    holds under the key, the given initial value when it holds none. *)
Definition number_input (st : session) (value : Qc) (key : string) : Qc :=
  default value (st !! key).

Definition spend_all (st : session) : Qc :=
  number_input st (default 0 (st !! "spend_all"%string)) "spend_all".

Definition rev_all (st : session) : Qc :=
  number_input st (default 0 (st !! "rev_all"%string)) "rev_all".

(** The widget key of a fund: [f"{tab}_fund_{category}_{fund}"]. *)
Definition fund_key (fund_prefix category fund : string) : string :=
  fund_prefix +:+ category +:+ "_" +:+ fund.

(** The drill-down loop of one category: a nonzero input is stored under the
    fund name. *)
Definition fund_step (st : session) (fund_prefix category : string)
    (fund_adjustments : gmap string Qc) (fund : string) : gmap string Qc :=
  let fund_pct := number_input st 0 (fund_key fund_prefix category fund) in
  if decide (fund_pct ≠ 0) then <[fund := fund_pct]> fund_adjustments
  else fund_adjustments.

Definition fund_loop (st : session) (fund_prefix category : string)
    (funds : list string) (fund_adjustments : gmap string Qc) : gmap string Qc :=
  foldl (fund_step st fund_prefix category) fund_adjustments funds.

(** The two dictionaries, [category_adjustments] and [fund_adjustments]. *)
Definition adjustments : Type := gmap string Qc * gmap string Qc.

(** The body of the category loop of a tab.  Both tabs run the same body, on
    their own widget keys and with their own "Adjust All" value. *)
Definition tab_step (st : session) (cat_prefix fund_prefix : string) (all : Qc)
    (gdf : list grow) (adj : adjustments) (category : string) : adjustments :=
  let cat_pct := number_input st all (cat_prefix +:+ category) in
  (<[category := cat_pct]> adj.1,
   fund_loop st fund_prefix category (funds_of gdf category) adj.2).

Definition tab_loop (st : session) (cat_prefix fund_prefix : string) (all : Qc)
    (gdf : list grow) (cats : list string) (adj : adjustments) : adjustments :=
  foldl (tab_step st cat_prefix fund_prefix all gdf) adj cats.

(** [with tab_spending: ...]: one widget for every category of the data. *)
Definition tab_spending (st : session) (gdf : list grow) (adj : adjustments)
    : adjustments :=
  tab_loop st "spend_cat_" "spend_fund_" (spend_all st) gdf (categories gdf) adj.

(** [with tab_revenue: ...]: one widget for every revenue category. *)
Definition tab_revenue (st : session) (gdf : list grow) (adj : adjustments)
    : adjustments :=
  tab_loop st "rev_cat_" "rev_fund_" (rev_all st) gdf revenue_fund_cats adj.

(** The dictionaries after both tabs have run, from empty ones. *)
Definition run_tabs (st : session) (gdf : list grow) : adjustments :=
  tab_revenue st gdf (tab_spending st gdf (∅, ∅)).

Definition category_adjustments (st : session) (gdf : list grow)
    : gmap string Qc := (run_tabs st gdf).1.

Definition fund_adjustments (st : session) (gdf : list grow)
    : gmap string Qc := (run_tabs st gdf).2.

(** "Reset All Adjustments" deletes every key of the session. *)
Definition reset (st : session) : session := ∅.

(** ** Calculate Totals *)

(** [fund_adjustments.get(fund_name, category_adjustments.get(fund_cat, 0))] *)
Definition effective_pct (ca fa : gmap string Qc) (fund_cat fund_name : string)
    : Qc :=
  default (default 0 (ca !! fund_cat)) (fa !! fund_name).

(** [value * (1 + pct / 100)] *)
Definition adjusted_value (ca fa : gmap string Qc) (r : grow) : Qc :=
  g_approp_m r * (1 + effective_pct ca fa (g_category r) (g_fund r) / 100).

(** One turn of the loop over [grouped_df.iterrows()]; the state is
    [(adjusted_revenue, adjusted_spending)]. *)
Definition totals_step (ca fa : gmap string Qc) (acc : Qc * Qc) (r : grow)
    : Qc * Qc :=
  let x := adjusted_value ca fa r in
  (if decide (g_category r ∈ revenue_fund_cats) then acc.1 + x else acc.1,
   acc.2 + x).

Definition totals_loop (ca fa : gmap string Qc) (gdf : list grow) : Qc * Qc :=
  foldl (totals_step ca fa) (0, 0) gdf.

Record totals : Type := Totals {
  original_revenue : Qc;
  original_spending : Qc;
  original_deficit : Qc;
  adjusted_revenue : Qc;
  adjusted_spending : Qc;
  adjusted_deficit : Qc
}.

(** The totals from the loaded frame [df] and the two dictionaries. *)
Definition calculate_totals (df : list row) (ca fa : gmap string Qc) : totals :=
  let grouped_df := groupby_sum df in
  let adjusted := totals_loop ca fa grouped_df in
  let original_revenue :=
    nansum (approp_m <$> filter (λ r, category r ∈ revenue_fund_cats) df) in
  let original_spending := nansum (approp_m <$> df) in
  Totals original_revenue original_spending
         (original_revenue - original_spending)
         adjusted.1 adjusted.2 (adjusted.1 - adjusted.2).

(** One run of the script on a loaded frame and a session. *)
Definition dashboard (df : list row) (st : session) : totals :=
  let grouped_df := groupby_sum df in
  calculate_totals df (category_adjustments st grouped_df)
                      (fund_adjustments st grouped_df).

(** ** Sidebar: Adjustment Log *)

Inductive color : Type := green | red.

(** One line of the log: the name, the colour and the percentage shown. *)
Record log_line : Type := LogLine {
  log_name : string;
  log_color : color;
  log_pct : Qc
}.

(** ['green' if pct > 0 else 'red'] *)
Definition pct_color (pct : Qc) : color :=
  if decide (0 < pct) then green else red.

(** The state of the two loops of the log: the lines written so far and
    [any_changes]. *)
Definition log_state : Type := list log_line * bool.

(** The body of the loop over [category_adjustments.items()]: a line for an
    entry that is not 0. *)
Definition log_category (acc : log_state) (item : string * Qc) : log_state :=
  if decide (item.2 ≠ 0)
  then (acc.1 ++ [LogLine item.1 (pct_color item.2) item.2], true)
  else acc.

(** The body of the loop over [fund_adjustments.items()]: a line for every
    entry. *)
Definition log_fund (acc : log_state) (item : string * Qc) : log_state :=
  (acc.1 ++ [LogLine item.1 (pct_color item.2) item.2], true).

(** The log of the sidebar.  The items of a dictionary are walked in the
    order of [map_to_list], which need not be the order of insertion: the
    order of the lines within each of the two blocks is not modelled. *)
Definition adjustment_log (ca fa : gmap string Qc) : log_state :=
  foldl log_fund (foldl log_category ([], false) (map_to_list ca))
        (map_to_list fa).

(** [if not any_changes: st.write("No adjustments yet.")] *)
Definition no_adjustments_yet (ca fa : gmap string Qc) : bool :=
  negb (adjustment_log ca fa).2.

(** ** Vocabulary of the statements *)

(** The weight of a row in a total: its factor when it counts, else 0. *)
Definition weight (counts : string → bool) (factor : key → Qc) (k : key) : Qc :=
  if counts k.1 then factor k else 0.

Definition is_revenue (c : string) : bool :=
  bool_decide (c ∈ revenue_fund_cats).

Definition factor (ca fa : gmap string Qc) (k : key) : Qc :=
  1 + effective_pct ca fa k.1 k.2 / 100.

(** The nonzero inputs that the drill-down loop of one category stores under
    the fund name [f], in the order in which it stores them. *)
Definition fund_writes (st : session) (fund_prefix category : string)
    (funds : list string) (f : string) : list Qc :=
  filter (λ v, v ≠ 0)
    ((λ f', number_input st 0 (fund_key fund_prefix category f'))
       <$> filter (λ f', f' = f) funds).

(** The same for the whole category loop of a tab. *)
Definition tab_writes (st : session) (fund_prefix : string) (gdf : list grow)
    (cats : list string) (f : string) : list Qc :=
  cats ≫= (λ c, fund_writes st fund_prefix c (funds_of gdf c) f).

(** And for both tabs, the spending tab first. *)
Definition all_writes (st : session) (gdf : list grow) (f : string) : list Qc :=
  tab_writes st "spend_fund_" gdf (categories gdf) f
  ++ tab_writes st "rev_fund_" gdf revenue_fund_cats f.

(** The adjusted totals are the original ones. *)
Definition unchanged (t : totals) : Prop :=
  adjusted_spending t = original_spending t ∧
  adjusted_revenue t = original_revenue t ∧
  adjusted_deficit t = original_deficit t.

(** The line the log writes for an item of a dictionary. *)
Definition log_line_of (item : string * Qc) : log_line :=
  LogLine item.1 (pct_color item.2) item.2.


(** ** The example datasets *)

(** Two categories: General Funds, a revenue category, with the funds F1
    ($100M) and F2 ($200M), and Debt Service Funds, not a revenue category,
    with the fund F3 ($50M). *)
Definition scenario_sheet : list raw_row :=
  [RawRow (Some "General Funds") (Some "F1") (Num (Qc_of_Z 100000000));
   RawRow (Some "General Funds") (Some "F2") (Num (Qc_of_Z 200000000));
   RawRow (Some "Debt Service Funds") (Some "F3") (Num (Qc_of_Z 50000000))]%string.

(** General Funds at +10%, entered in the revenue tab. *)
Definition category_up_10 : session :=
  {[ "rev_cat_General Funds"%string := Qc_of_Z 10 ]}.

(** Then F1 at -20%, entered in the drill-down of the spending tab. *)
Definition then_fund_down_20 : session :=
  <[ "spend_fund_General Funds_F1"%string := Qc_of_Z (-20) ]> category_up_10.

(** A sheet with one amount that is text and not a number. *)
Definition sheet_with_text : list raw_row :=
  [RawRow (Some "General Funds") (Some "F1") (Num (Qc_of_Z 100000000));
   RawRow (Some "General Funds") (Some "F9") (Str "TBD")]%string.

(** A sheet whose only amount is 0. *)
Definition sheet_of_zero : list raw_row :=
  [RawRow (Some "General Funds") (Some "F1") (Num 0)]%string.

(** A sheet with a negative amount outside the revenue categories. *)
Definition sheet_with_refund : list raw_row :=
  [RawRow (Some "General Funds") (Some "F1") (Num (Qc_of_Z 100000000));
   RawRow (Some "Debt Service Funds") (Some "F3") (Num (Qc_of_Z (-50000000)))]%string.

(** The same fund name under two categories. *)
Definition sheet_shared_name : list raw_row :=
  [RawRow (Some "Debt Service Funds") (Some "Road Fund") (Num (Qc_of_Z 50000000));
   RawRow (Some "State Trust Funds") (Some "Road Fund") (Num (Qc_of_Z 30000000))]%string.

(** The frames of these sheets, text read as plain numerals. *)
Definition scenario_df : list row := load_data read_numeral scenario_sheet.
Definition scenario_gdf : list grow := groupby_sum scenario_df.
Definition shared_gdf : list grow :=
  groupby_sum (load_data read_numeral sheet_shared_name).
Definition zero_gdf : list grow :=
  groupby_sum (load_data read_numeral sheet_of_zero).

(** The Road Fund of Debt Service Funds at -20%, in the spending tab. *)
Definition road_fund_down_20 : session :=
  {[ "spend_fund_Debt Service Funds_Road Fund"%string := Qc_of_Z (-20) ]}.


(** The scenario sheet with an incomplete row in the middle. *)
Definition scenario_sheet_with_blank : list raw_row :=
  [RawRow (Some "General Funds") (Some "F1") (Num (Qc_of_Z 100000000));
   RawRow (Some "General Funds") None (Num (Qc_of_Z 70000000));
   RawRow (Some "General Funds") (Some "F2") (Num (Qc_of_Z 200000000));
   RawRow (Some "Debt Service Funds") (Some "F3") (Num (Qc_of_Z 50000000))]%string.

(** "Adjust All" of the spending tab at +10%, every other widget untouched. *)
Definition spend_all_up_10 : session := {[ "spend_all"%string := Qc_of_Z 10 ]}.

(** The Road Fund of State Trust Funds at +50%, in the spending tab; the
    widgets of the Road Fund of Debt Service Funds are left at 0. *)
Definition other_road_fund_up_50 : session :=
  {[ "spend_fund_State Trust Funds_Road Fund"%string := Qc_of_Z 50 ]}.

(** * The arithmetic of the script in binary64

    The script adds, multiplies and divides doubles.  The definitions above
    compute with exact rationals: they serve the properties in which rounding
    has no part (which entry is looked up, which expression is added, an
    order between sums of terms that are at least 0).  The module below
    follows the same lines of the script with primitive doubles, to run them
    on a given sheet.  Three sums are taken inside pandas and NumPy:
    [Series.sum()], the sum of [groupby(...).agg] and the one of
    [transform('sum')]; they are modelled from those libraries. *)

Module Double.
Local Open Scope float_scope.

(** [x != x] *)
Definition isnan (x : float) : bool := negb (x =? x).

(** A row of [df] as [load_data] returns it; a NaN amount is [nan]. *)
Record row : Type := Row {
  category : string;
  fund : string;
  approp : float                  (* 'FY25 Act Approp' *)
}.

(** [df['FY25 Act Approp (M)'] = df['FY25 Act Approp'] / 1_000_000] *)
Definition approp_m (r : row) : float := approp r / 1000000.

Definition row_key (r : row) : key := (category r, fund r).

(** NumPy's pairwise sum of an array of doubles: fewer than 8 values are
    added from left to right; up to 128 values go through eight running sums
    that are combined at the end, the remaining values being added last; a
    longer array is split in two. *)
Fixpoint unrolled_loop (fuel : nat) (r a : list float) : list float * list float :=
  match fuel with
  | O => (r, a)
  | S fuel' =>
      if decide (8 ≤ length a)%nat
      then unrolled_loop fuel' (zip_with PrimFloat.add r (take 8 a)) (drop 8 a)
      else (r, a)
  end.

Definition combine8 (r : list float) : float :=
  match r with
  | [r0; r1; r2; r3; r4; r5; r6; r7] =>
      ((r0 + r1) + (r2 + r3)) + ((r4 + r5) + (r6 + r7))
  | _ => 0
  end.

Definition pairwise_block (a : list float) : float :=
  let '(r, rest) := unrolled_loop (length a) (take 8 a) (drop 8 a) in
  foldl PrimFloat.add (combine8 r) rest.

Fixpoint pairwise_sum (fuel : nat) (a : list float) : float :=
  let n := length a in
  if decide (n < 8)%nat then foldl PrimFloat.add 0 a
  else if decide (n ≤ 128)%nat then pairwise_block a
  else match fuel with
       | O => pairwise_block a
       | S fuel' =>
           let n2 := (n / 2 - (n / 2) mod 8)%nat in
           pairwise_sum fuel' (take n2 a) + pairwise_sum fuel' (drop n2 a)
       end.

(** [Series.sum()]: NaN entries count as 0 ([skipna=True]), the rest is
    NumPy's sum, from 0. *)
Definition series_sum (l : list float) : float :=
  let a := (λ x, if isnan x then 0 else x) <$> l in
  0 + pairwise_sum (length a) a.

(** The sum of one group in pandas: NaN entries are skipped, the others are
    added with a running compensation (Kahan). *)
Definition kahan_step (acc : float * float) (val : float) : float * float :=
  if isnan val then acc
  else
    let y := val - acc.2 in
    let t := acc.1 + y in
    let compensation := t - acc.1 - y in
    (t, if isnan compensation then 0 else compensation).

Definition group_sum_of (vals : list float) : float :=
  (foldl kahan_step (0, 0) vals).1.

(** ** Preprocess for Treemap and Adjustments *)

Record grow : Type := GRow {
  g_category : string;
  g_fund : string;
  g_approp_m : float
}.

Definition group_keys (df : list row) : list key :=
  merge_sort key_le (unique (row_key <$> df)).

Definition group_sum (df : list row) (k : key) : float :=
  group_sum_of (approp_m <$> filter (λ r, row_key r = k) df).

Definition groupby_sum (df : list row) : list grow :=
  (λ k, GRow k.1 k.2 (group_sum df k)) <$> group_keys df.

Definition total_appropriation (gdf : list grow) : float :=
  series_sum (g_approp_m <$> gdf).

Definition category_total (gdf : list grow) (c : string) : float :=
  group_sum_of (g_approp_m <$> filter (λ r, g_category r = c) gdf).

Definition category_pct_of_total (gdf : list grow) (c : string) : float :=
  category_total gdf c / total_appropriation gdf * 100.

Definition fund_pct_of_category (gdf : list grow) (r : grow) : float :=
  g_approp_m r / category_total gdf (g_category r) * 100.

Definition categories (gdf : list grow) : list string :=
  unique (g_category <$> gdf).

Definition funds_of (gdf : list grow) (c : string) : list string :=
  unique (g_fund <$> filter (λ r, g_category r = c) gdf).

(** ** Interactive Adjustments UI *)

Abbreviation session := (gmap string float).

Definition number_input (st : session) (value : float) (key : string) : float :=
  default value (st !! key).

Definition spend_all (st : session) : float :=
  number_input st (default 0 (st !! "spend_all"%string)) "spend_all".

Definition rev_all (st : session) : float :=
  number_input st (default 0 (st !! "rev_all"%string)) "rev_all".

Definition fund_step (st : session) (fund_prefix category : string)
    (fund_adjustments : gmap string float) (fund : string) : gmap string float :=
  let fund_pct := number_input st 0 (fund_key fund_prefix category fund) in
  if negb (fund_pct =? 0) then <[fund := fund_pct]> fund_adjustments
  else fund_adjustments.

Definition fund_loop (st : session) (fund_prefix category : string)
    (funds : list string) (fund_adjustments : gmap string float)
    : gmap string float :=
  foldl (fund_step st fund_prefix category) fund_adjustments funds.

Definition adjustments : Type := gmap string float * gmap string float.

Definition tab_step (st : session) (cat_prefix fund_prefix : string) (all : float)
    (gdf : list grow) (adj : adjustments) (category : string) : adjustments :=
  let cat_pct := number_input st all (cat_prefix +:+ category) in
  (<[category := cat_pct]> adj.1,
   fund_loop st fund_prefix category (funds_of gdf category) adj.2).

Definition tab_loop (st : session) (cat_prefix fund_prefix : string) (all : float)
    (gdf : list grow) (cats : list string) (adj : adjustments) : adjustments :=
  foldl (tab_step st cat_prefix fund_prefix all gdf) adj cats.

Definition run_tabs (st : session) (gdf : list grow) : adjustments :=
  tab_loop st "rev_cat_" "rev_fund_" (rev_all st) gdf revenue_fund_cats
    (tab_loop st "spend_cat_" "spend_fund_" (spend_all st) gdf
       (categories gdf) (∅, ∅)).

Definition category_adjustments (st : session) (gdf : list grow)
    : gmap string float := (run_tabs st gdf).1.

Definition fund_adjustments (st : session) (gdf : list grow)
    : gmap string float := (run_tabs st gdf).2.

(** ** Calculate Totals *)

Definition effective_pct (ca fa : gmap string float) (fund_cat fund_name : string)
    : float :=
  default (default 0 (ca !! fund_cat)) (fa !! fund_name).

Definition adjusted_value (ca fa : gmap string float) (r : grow) : float :=
  g_approp_m r * (1 + effective_pct ca fa (g_category r) (g_fund r) / 100).

Definition totals_step (ca fa : gmap string float) (acc : float * float) (r : grow)
    : float * float :=
  let x := adjusted_value ca fa r in
  (if decide (g_category r ∈ revenue_fund_cats) then acc.1 + x else acc.1,
   acc.2 + x).

Definition totals_loop (ca fa : gmap string float) (gdf : list grow)
    : float * float :=
  foldl (totals_step ca fa) (0, 0) gdf.

Record totals : Type := Totals {
  original_revenue : float;
  original_spending : float;
  original_deficit : float;
  adjusted_revenue : float;
  adjusted_spending : float;
  adjusted_deficit : float
}.

Definition calculate_totals (df : list row) (ca fa : gmap string float) : totals :=
  let grouped_df := groupby_sum df in
  let adjusted := totals_loop ca fa grouped_df in
  let original_revenue :=
    series_sum (approp_m
                  <$> filter (λ r, category r ∈ revenue_fund_cats) df) in
  let original_spending := series_sum (approp_m <$> df) in
  Totals original_revenue original_spending
         (original_revenue - original_spending)
         adjusted.1 adjusted.2 (adjusted.1 - adjusted.2).

Definition dashboard (df : list row) (st : session) : totals :=
  let grouped_df := groupby_sum df in
  calculate_totals df (category_adjustments st grouped_df)
                      (fund_adjustments st grouped_df).

(** ** The example datasets, in doubles *)

(** The scenario: General Funds with F1 ($100M) and F2 ($200M), Debt Service
    Funds with F3 ($50M). *)
Definition scenario_df : list row :=
  [Row "General Funds" "F1" 100000000;
   Row "General Funds" "F2" 200000000;
   Row "Debt Service Funds" "F3" 50000000]%string.

Definition category_up_10 : session :=
  {[ "rev_cat_General Funds"%string := 10 ]}.

Definition then_fund_down_20 : session :=
  <[ "spend_fund_General Funds_F1"%string := -20 ]> category_up_10.



(** Three categories of $1M each. *)
Definition three_categories_df : list row :=
  [Row "General Funds" "F1" 1000000;
   Row "Highway Funds" "F2" 1000000;
   Row "Debt Service Funds" "F3" 1000000]%string.

End Double.

(** * Properties *)

(** Equality of two closed rationals, by computation. *)
Ltac Qc_compute := apply Qc_is_canon; vm_compute; reflexivity.

(** ** Sums of rationals *)

Lemma Qsum_nil : Qsum [] = 0.
Proof. done. Qed.

Lemma Qsum_cons (x : Qc) (l : list Qc) : Qsum (x :: l) = x + Qsum l.
Proof. done. Qed.

Global Arguments Qsum : simpl never.

Lemma Qsum_app (l1 l2 : list Qc) : Qsum (l1 ++ l2) = Qsum l1 + Qsum l2.
Proof.
  induction l1 as [|x l1 IH]; [rewrite Qsum_nil; simpl; ring|].
  rewrite <-app_comm_cons, !Qsum_cons, IH. ring.
Qed.

Lemma Qsum_Permutation (l1 l2 : list Qc) : l1 ≡ₚ l2 → Qsum l1 = Qsum l2.
Proof.
  induction 1 as [|x l1 l2 _ IH|x y l|l1 l2 l3 _ IH1 _ IH2];
    rewrite ?Qsum_cons.
  - done.
  - by rewrite IH.
  - ring.
  - by rewrite IH1.
Qed.

Lemma nansum_default (l : list (option Qc)) :
  nansum l = Qsum (default 0 <$> l).
Proof.
  unfold nansum. induction l as [|[x|] l IH]; csimpl; [done| |].
  - by rewrite !Qsum_cons, IH.
  - rewrite Qsum_cons, IH. ring.
Qed.

Section Sums.
Context {A : Type}.
Implicit Types (f g : A → Qc) (l : list A).

Lemma Qsum_fmap_plus f g l :
  Qsum ((λ x, f x + g x) <$> l) = Qsum (f <$> l) + Qsum (g <$> l).
Proof.
  induction l as [|x l IH]; [rewrite !fmap_nil, Qsum_nil; ring|].
  rewrite !fmap_cons, !Qsum_cons, IH. ring.
Qed.

Lemma Qsum_fmap_scale f (c : Qc) l :
  Qsum ((λ x, f x * c) <$> l) = Qsum (f <$> l) * c.
Proof.
  induction l as [|x l IH]; [rewrite !fmap_nil, Qsum_nil; ring|].
  rewrite !fmap_cons, !Qsum_cons, IH. ring.
Qed.

Lemma Qsum_fmap_ext f g l :
  (∀ x, x ∈ l → f x = g x) → Qsum (f <$> l) = Qsum (g <$> l).
Proof.
  induction l as [|x l IH]; intros Hfg; [done|].
  rewrite !fmap_cons, !Qsum_cons, Hfg by left. rewrite IH; [done|].
  intros y Hy. apply Hfg. by right.
Qed.

Lemma Qsum_fmap_zero f l : (∀ x, x ∈ l → f x = 0) → Qsum (f <$> l) = 0.
Proof.
  induction l as [|x l IH]; intros Hf; [done|].
  rewrite fmap_cons, Qsum_cons, Hf by left. rewrite IH; [ring|].
  intros y Hy. apply Hf. by right.
Qed.


(** Summing over the selected rows is summing the selected terms. *)
Lemma Qsum_fmap_filter (P : A → Prop) `{!∀ x, Decision (P x)} f l :
  Qsum (f <$> filter P l)
  = Qsum ((λ x, if decide (P x) then f x else 0) <$> l).
Proof.
  induction l as [|x l IH]; [done|].
  rewrite filter_cons, fmap_cons, Qsum_cons.
  destruct (decide (P x)); rewrite ?fmap_cons, ?Qsum_cons, IH; ring.
Qed.

(** A sum in which one index only carries a term. *)
Lemma Qsum_pick `{!EqDecision A} f (a : A) l :
  NoDup l → a ∈ l →
  Qsum ((λ x, if decide (a = x) then f x else 0) <$> l) = f a.
Proof.
  induction 1 as [|x l Hx Hl IH]; intros Ha.
  - by apply elem_of_nil in Ha.
  - rewrite fmap_cons, Qsum_cons. destruct (decide (a = x)) as [->|Hne].
    + rewrite Qsum_fmap_zero; [ring|].
      intros y Hy. destruct (decide (x = y)) as [->|]; done.
    + apply elem_of_cons in Ha as [?|Ha]; [done|]. rewrite IH by done. ring.
Qed.
End Sums.

(** Grouping a list by a key and adding up the group sums, each with a
    weight that depends on the key alone, is adding up the weighted terms of
    the list itself. *)
Section Regroup.
Context {A K : Type} `{!EqDecision K}.
Variables (κ : A → K) (v : A → Qc) (w : K → Qc).

Lemma Qsum_regroup (ks : list K) (l : list A) :
  NoDup ks → (∀ x, x ∈ l → κ x ∈ ks) →
  Qsum ((λ k, w k * Qsum (v <$> filter (λ x, κ x = k) l)) <$> ks)
  = Qsum ((λ x, w (κ x) * v x) <$> l).
Proof.
  intros Hks. induction l as [|x l IH]; intros Hin.
  - rewrite fmap_nil, Qsum_nil. apply Qsum_fmap_zero. intros k _.
    rewrite filter_nil, fmap_nil, Qsum_nil. ring.
  - trans (Qsum ((λ k, (if decide (κ x = k) then w k * v x else 0)
                       + w k * Qsum (v <$> filter (λ y, κ y = k) l)) <$> ks)).
    + apply Qsum_fmap_ext. intros k _. rewrite filter_cons.
      destruct (decide (κ x = k)); rewrite ?fmap_cons, ?Qsum_cons; ring.
    + rewrite (Qsum_fmap_plus (λ k, if decide (κ x = k) then w k * v x else 0)).
      rewrite (Qsum_pick (λ k, w k * v x)) by (done || apply Hin; left).
      rewrite IH by (intros y Hy; apply Hin; by right).
      by rewrite fmap_cons, Qsum_cons.
Qed.
End Regroup.

(** ** [unique] *)

Section Unique.
Context {A : Type} `{!EqDecision A}.
Implicit Types (l : list A).

Lemma elem_of_unique l x : x ∈ unique l ↔ x ∈ l.
Proof.
  induction l as [|y l IH]; [done|]. cbn [unique].
  rewrite !elem_of_cons, list_elem_of_filter, IH.
  destruct (decide (x = y)); tauto.
Qed.

Lemma NoDup_unique l : NoDup (unique l).
Proof.
  induction l as [|y l IH]; cbn [unique]; [constructor|].
  apply NoDup_cons. split; [|by apply NoDup_filter].
  rewrite list_elem_of_filter. tauto.
Qed.
End Unique.

(** ** The grouped frame *)

Lemma group_keys_Permutation (df : list row) :
  group_keys df ≡ₚ unique (row_key <$> df).
Proof. apply merge_sort_Permutation. Qed.

Lemma NoDup_group_keys (df : list row) : NoDup (group_keys df).
Proof. rewrite group_keys_Permutation. apply NoDup_unique. Qed.

Lemma elem_of_group_keys (df : list row) (k : key) :
  k ∈ group_keys df ↔ k ∈ row_key <$> df.
Proof. rewrite group_keys_Permutation. apply elem_of_unique. Qed.

(** Every group is one row of the grouped frame: no key occurs twice. *)
Lemma NoDup_groupby_keys (df : list row) :
  NoDup (grow_key <$> groupby_sum df).
Proof.
  unfold groupby_sum. rewrite <-list_fmap_compose.
  rewrite (list_fmap_ext _ id (group_keys df)).
  - rewrite list_fmap_id. apply NoDup_group_keys.
  - by intros i [c f] _.
Qed.

Lemma elem_of_groupby_sum (df : list row) (r : grow) :
  r ∈ groupby_sum df ↔
  (∃ x, x ∈ df ∧ row_key x = grow_key r) ∧
  g_approp_m r = group_sum df (grow_key r).
Proof.
  unfold groupby_sum. rewrite list_elem_of_fmap. split.
  - intros ([c f] & -> & Hk). apply elem_of_group_keys in Hk.
    apply list_elem_of_fmap in Hk as (x & Hx & Hin). split; [|done].
    exists x. by split.
  - intros [(x & Hin & Hx) Hv]. exists (grow_key r). split.
    + destruct r as [c f a]. simpl in *. by rewrite Hv.
    + apply elem_of_group_keys. rewrite <-Hx. by apply list_elem_of_fmap_2.
Qed.

(** A sum over the grouped frame, each group weighted by a function of its
    key, is the same sum over the rows of the loaded frame, a NaN amount
    counting as 0. *)
Lemma Qsum_groupby (W : key → Qc) (df : list row) :
  Qsum ((λ r, W (grow_key r) * g_approp_m r) <$> groupby_sum df)
  = Qsum ((λ x, W (row_key x) * default 0 (approp_m x)) <$> df).
Proof.
  unfold groupby_sum. rewrite <-list_fmap_compose.
  rewrite <-(Qsum_regroup row_key (λ x, default 0 (approp_m x)) W (group_keys df)).
  - apply Qsum_fmap_ext. intros [c f] _. unfold compose, grow_key, group_sum.
    simpl. by rewrite nansum_default, <-list_fmap_compose.
  - apply NoDup_group_keys.
  - intros x Hx. apply elem_of_group_keys. by apply list_elem_of_fmap_2.
Qed.

(** ** The loop over the grouped frame *)

Lemma totals_loop_acc (ca fa : gmap string Qc) (gdf : list grow) (acc : Qc * Qc) :
  foldl (totals_step ca fa) acc gdf
  = (acc.1 + Qsum (adjusted_value ca fa
                     <$> filter (λ r, g_category r ∈ revenue_fund_cats) gdf),
     acc.2 + Qsum (adjusted_value ca fa <$> gdf)).
Proof.
  revert acc. induction gdf as [|r gdf IH]; intros [rev spend].
  - cbn. rewrite Qsum_nil. f_equal; ring.
  - cbn [foldl]. rewrite IH, filter_cons. unfold totals_step at 1 2. cbn [fst snd].
    destruct (decide (g_category r ∈ revenue_fund_cats));
      rewrite ?fmap_cons, ?Qsum_cons; f_equal; ring.
Qed.

Lemma totals_loop_sums (ca fa : gmap string Qc) (gdf : list grow) :
  totals_loop ca fa gdf
  = (Qsum (adjusted_value ca fa
             <$> filter (λ r, g_category r ∈ revenue_fund_cats) gdf),
     Qsum (adjusted_value ca fa <$> gdf)).
Proof.
  unfold totals_loop. rewrite totals_loop_acc. cbn [fst snd]. f_equal; ring.
Qed.

(** The four sums of [calculate_totals], each as a weighted sum over the
    grouped frame. *)
Lemma adjusted_spending_grouped df ca fa :
  adjusted_spending (calculate_totals df ca fa)
  = Qsum ((λ r, weight (λ _, true) (factor ca fa) (grow_key r) * g_approp_m r)
            <$> groupby_sum df).
Proof.
  cbn. rewrite totals_loop_sums. cbn [snd]. apply Qsum_fmap_ext.
  intros r _. unfold adjusted_value, weight, factor. cbn. ring.
Qed.

Lemma adjusted_revenue_grouped df ca fa :
  adjusted_revenue (calculate_totals df ca fa)
  = Qsum ((λ r, weight is_revenue (factor ca fa) (grow_key r) * g_approp_m r)
            <$> groupby_sum df).
Proof.
  cbn. rewrite totals_loop_sums. cbn [fst]. rewrite Qsum_fmap_filter.
  apply Qsum_fmap_ext. intros r _.
  unfold adjusted_value, weight, factor, is_revenue. cbn.
  destruct (decide (g_category r ∈ revenue_fund_cats)).
  - rewrite bool_decide_eq_true_2 by done. ring.
  - rewrite bool_decide_eq_false_2 by done. ring.
Qed.

Lemma original_spending_grouped df ca fa :
  original_spending (calculate_totals df ca fa)
  = Qsum ((λ r, weight (λ _, true) (λ _, 1) (grow_key r) * g_approp_m r)
            <$> groupby_sum df).
Proof.
  rewrite (Qsum_groupby (weight (λ _, true) (λ _, 1)) df).
  cbn. rewrite nansum_default, <-list_fmap_compose.
  apply Qsum_fmap_ext. intros x _. unfold weight, compose. cbn. ring.
Qed.

Lemma original_revenue_grouped df ca fa :
  original_revenue (calculate_totals df ca fa)
  = Qsum ((λ r, weight is_revenue (λ _, 1) (grow_key r) * g_approp_m r)
            <$> groupby_sum df).
Proof.
  rewrite (Qsum_groupby (weight is_revenue (λ _, 1)) df).
  cbn. rewrite nansum_default, <-list_fmap_compose.
  rewrite Qsum_fmap_filter. apply Qsum_fmap_ext. intros x _.
  unfold weight, compose, is_revenue. cbn.
  destruct (decide (category x ∈ revenue_fund_cats)).
  - rewrite bool_decide_eq_true_2 by done. ring.
  - rewrite bool_decide_eq_false_2 by done. ring.
Qed.

(** ** The widget loops *)

Section Tabs.
Variables (st : session) (cat_prefix fund_prefix : string) (all : Qc).
Variable gdf : list grow.

(** The two dictionaries do not depend on one another. *)
Lemma tab_loop_fst cats adj :
  (tab_loop st cat_prefix fund_prefix all gdf cats adj).1
  = foldl (λ ca c, <[c := number_input st all (cat_prefix +:+ c)]> ca)
          adj.1 cats.
Proof.
  revert adj. induction cats as [|c cats IH]; intros adj; [done|].
  unfold tab_loop in *. cbn [foldl]. by rewrite IH.
Qed.

Lemma tab_loop_snd cats adj :
  (tab_loop st cat_prefix fund_prefix all gdf cats adj).2
  = foldl (λ fa c, fund_loop st fund_prefix c (funds_of gdf c) fa)
          adj.2 cats.
Proof.
  revert adj. induction cats as [|c cats IH]; intros adj; [done|].
  unfold tab_loop in *. cbn [foldl]. by rewrite IH.
Qed.

(** A category of the loop holds its widget's value afterwards; any other
    entry is left as it was. *)
Lemma tab_loop_category cats adj c :
  (tab_loop st cat_prefix fund_prefix all gdf cats adj).1 !! c
  = if decide (c ∈ cats)
    then Some (number_input st all (cat_prefix +:+ c))
    else adj.1 !! c.
Proof.
  rewrite tab_loop_fst. generalize (adj.1). clear adj.
  induction cats as [|x cats IH]; intros ca; cbn [foldl].
  - destruct (decide (c ∈ [])) as [H|]; [by apply elem_of_nil in H|done].
  - rewrite IH. destruct (decide (c ∈ cats)) as [Hin|Hnotin].
    + rewrite decide_True; [done|by right].
    + destruct (decide (c = x)) as [->|Hne].
      * rewrite decide_True by left. by rewrite lookup_insert_eq.
      * rewrite decide_False by (rewrite elem_of_cons; tauto).
        by rewrite lookup_insert_ne.
Qed.

(** The drill-down loop of a category: the entry of a fund name is the last
    nonzero input stored under it, the old entry when there is none. *)
Lemma fund_loop_lookup c funds fa f :
  fund_loop st fund_prefix c funds fa !! f
  = match last (fund_writes st fund_prefix c funds f) with
    | Some v => Some v
    | None => fa !! f
    end.
Proof.
  unfold fund_loop, fund_writes.
  induction funds as [|x funds IH] using rev_ind; [done|].
  rewrite foldl_snoc, filter_app, fmap_app, filter_app, last_app.
  unfold fund_step at 1. rewrite filter_cons, filter_nil.
  destruct (decide (x = f)) as [->|Hne].
  - rewrite fmap_cons, fmap_nil, filter_cons, filter_nil.
    destruct (decide (number_input st 0 (fund_key fund_prefix c f) ≠ 0)).
    + by rewrite lookup_insert_eq.
    + by rewrite IH.
  - rewrite fmap_nil, filter_nil. cbn [last].
    destruct (decide (number_input st 0 (fund_key fund_prefix c x) ≠ 0)).
    + by rewrite lookup_insert_ne, IH.
    + by rewrite IH.
Qed.

Lemma tab_loop_fund cats adj f :
  (tab_loop st cat_prefix fund_prefix all gdf cats adj).2 !! f
  = match last (tab_writes st fund_prefix gdf cats f) with
    | Some v => Some v
    | None => adj.2 !! f
    end.
Proof.
  rewrite tab_loop_snd. unfold tab_writes. generalize (adj.2). clear adj.
  induction cats as [|c cats IH] using rev_ind; intros fa; [done|].
  rewrite foldl_snoc, bind_app, bind_singleton, last_app, fund_loop_lookup.
  rewrite IH. by destruct (last (fund_writes _ _ _ _ _)).
Qed.

Lemma elem_of_fund_writes c funds f v :
  v ∈ fund_writes st fund_prefix c funds f ↔
  f ∈ funds ∧ v = number_input st 0 (fund_key fund_prefix c f) ∧ v ≠ 0.
Proof.
  unfold fund_writes. rewrite list_elem_of_filter, list_elem_of_fmap. split.
  - intros (Hv & f' & -> & Hf'). apply list_elem_of_filter in Hf' as [-> ?].
    done.
  - intros (Hf & -> & Hv). split; [done|]. exists f. split; [done|].
    by apply list_elem_of_filter.
Qed.

Lemma elem_of_tab_writes cats f v :
  v ∈ tab_writes st fund_prefix gdf cats f ↔
  ∃ c, c ∈ cats ∧ f ∈ funds_of gdf c ∧
       v = number_input st 0 (fund_key fund_prefix c f) ∧ v ≠ 0.
Proof.
  unfold tab_writes. rewrite list_elem_of_bind. split.
  - intros (c & Hv & Hc). apply elem_of_fund_writes in Hv. by exists c.
  - intros (c & Hc & Hv). exists c. split; [|done].
    by apply elem_of_fund_writes.
Qed.
End Tabs.

(** ** The two dictionaries after both tabs *)

(** The revenue tab runs last, so it decides the entry of each of its four
    categories; any other category of the data holds the spending tab's
    value; a category of neither has no entry. *)
Lemma category_adjustments_lookup (st : session) (gdf : list grow) (c : string) :
  category_adjustments st gdf !! c
  = if decide (c ∈ revenue_fund_cats)
    then Some (number_input st (rev_all st) ("rev_cat_" +:+ c))
    else if decide (c ∈ categories gdf)
         then Some (number_input st (spend_all st) ("spend_cat_" +:+ c))
         else None.
Proof.
  unfold category_adjustments, run_tabs, tab_revenue, tab_spending.
  rewrite !tab_loop_category. cbn [fst].
  by repeat case_decide.
Qed.

(** The entry of a fund name is the last nonzero input stored under it. *)
Lemma fund_adjustments_lookup (st : session) (gdf : list grow) (f : string) :
  fund_adjustments st gdf !! f = last (all_writes st gdf f).
Proof.
  unfold fund_adjustments, run_tabs, tab_revenue, tab_spending, all_writes.
  rewrite !tab_loop_fund, last_app. cbn [snd]. rewrite lookup_empty.
  destruct (last (tab_writes st "rev_fund_" _ _ _)); [done|].
  by destruct (last (tab_writes st "spend_fund_" _ _ _)).
Qed.

Lemma elem_of_all_writes (st : session) (gdf : list grow) (f : string) (v : Qc) :
  v ∈ all_writes st gdf f ↔
  (∃ c, c ∈ categories gdf ∧ f ∈ funds_of gdf c ∧
        v = number_input st 0 (fund_key "spend_fund_" c f) ∧ v ≠ 0) ∨
  (∃ c, c ∈ revenue_fund_cats ∧ f ∈ funds_of gdf c ∧
        v = number_input st 0 (fund_key "rev_fund_" c f) ∧ v ≠ 0).
Proof.
  unfold all_writes. by rewrite elem_of_app, !elem_of_tab_writes.
Qed.

Lemma fund_adjustments_nonzero (st : session) (gdf : list grow) (f : string) (v : Qc) :
  fund_adjustments st gdf !! f = Some v → v ≠ 0.
Proof.
  rewrite fund_adjustments_lookup. intros Hv%last_Some_elem_of.
  apply elem_of_all_writes in Hv as [(c & _ & _ & _ & Hv)|(c & _ & _ & _ & Hv)];
    done.
Qed.

(** A nonzero input of the spending tab registers an entry under the fund
    name, whichever input of that name ends up in it. *)
Lemma fund_adjustments_registered (st : session) (gdf : list grow) (c f : string) :
  c ∈ categories gdf → f ∈ funds_of gdf c →
  number_input st 0 (fund_key "spend_fund_" c f) ≠ 0 →
  ∃ v, v ≠ 0 ∧ fund_adjustments st gdf !! f = Some v.
Proof.
  intros Hc Hf Hw.
  destruct (fund_adjustments st gdf !! f) as [v|] eqn:Hfa.
  - exists v. split; [by eapply fund_adjustments_nonzero|done].
  - exfalso. rewrite fund_adjustments_lookup in Hfa.
    apply last_None in Hfa.
    assert (number_input st 0 (fund_key "spend_fund_" c f)
              ∈ all_writes st gdf f) as Hin.
    { apply elem_of_all_writes. left. by exists c. }
    rewrite Hfa in Hin. by apply elem_of_nil in Hin.
Qed.

Lemma funds_of_categories (gdf : list grow) (c f : string) :
  f ∈ funds_of gdf c → c ∈ categories gdf.
Proof.
  unfold funds_of, categories. rewrite !elem_of_unique, !list_elem_of_fmap.
  intros (r & _ & Hr). apply list_elem_of_filter in Hr as [Hc Hr].
  exists r. by split.
Qed.

Lemma elem_of_funds_of (gdf : list grow) (r : grow) :
  r ∈ gdf → g_fund r ∈ funds_of gdf (g_category r).
Proof.
  intros Hr. unfold funds_of. rewrite elem_of_unique, list_elem_of_fmap.
  exists r. split; [done|]. by apply list_elem_of_filter.
Qed.

(** * Main results *)

(** ** The loader *)

(** C1 (the code departs from the claim).  [load_data] drops the rows with a
    missing amount before it coerces the column, so a row whose amount is
    text that is not a number is not dropped: it is in the loaded frame,
    with a NaN amount in both amount columns, and its category and fund are
    a group of the grouped frame. *)
Theorem load_data_keeps_failed_coercion
    (str_to_num : string → option Qc) (xlsx : list raw_row) (c f s : string) :
  RawRow (Some c) (Some f) (Str s) ∈ xlsx →
  str_to_num s = None →
  Row c f None None ∈ load_data str_to_num xlsx ∧
  (c, f) ∈ grow_key <$> groupby_sum (load_data str_to_num xlsx).
Proof.
  intros Hin Hs.
  assert (Row c f None None ∈ load_data str_to_num xlsx) as Hrow.
  { unfold load_data. apply list_elem_of_fmap.
    exists (KeptRow c f (Str s)). split.
    - unfold load_row. cbn. by rewrite Hs.
    - unfold dropna. apply list_elem_of_omap.
      exists (RawRow (Some c) (Some f) (Str s)). by split. }
  split; [done|]. apply list_elem_of_fmap.
  exists (GRow c f (group_sum (load_data str_to_num xlsx) (c, f))).
  split; [done|]. apply elem_of_groupby_sum. split; [|done].
  by exists (Row c f None None).
Qed.

Lemma load_data_keeps_failed_coercion_witness :
  Row "General Funds" "F9" None None ∈ load_data read_numeral sheet_with_text ∧
  ("General Funds"%string, "F9"%string)
    ∈ grow_key <$> groupby_sum (load_data read_numeral sheet_with_text).
Proof.
  apply (load_data_keeps_failed_coercion read_numeral sheet_with_text
           "General Funds" "F9" "TBD").
  - unfold sheet_with_text. right. left.
  - reflexivity.
Defined.

(** ** The deficit *)

(** C10.  Whatever the loaded frame and the two dictionaries, each deficit
    is the revenue minus the spending, with its sign: it is negative exactly
    when the spending exceeds the revenue and positive exactly when the
    revenue exceeds the spending. *)
Theorem deficit_is_revenue_minus_spending
    (df : list row) (ca fa : gmap string Qc) :
  let t := calculate_totals df ca fa in
  original_deficit t = original_revenue t - original_spending t ∧
  adjusted_deficit t = adjusted_revenue t - adjusted_spending t ∧
  (original_deficit t < 0 ↔ original_revenue t < original_spending t) ∧
  (0 < original_deficit t ↔ original_spending t < original_revenue t) ∧
  (adjusted_deficit t < 0 ↔ adjusted_revenue t < adjusted_spending t) ∧
  (0 < adjusted_deficit t ↔ adjusted_spending t < adjusted_revenue t).
Proof.
  assert (∀ a b : Qc, a - b < 0 ↔ a < b) as Hneg.
  { intros a b. rewrite (Qcplus_lt_mono_r _ _ b).
    by replace (a - b + b) with a by ring; replace (0 + b) with b by ring. }
  assert (∀ a b : Qc, 0 < a - b ↔ b < a) as Hpos.
  { intros a b. rewrite (Qcplus_lt_mono_r _ _ b).
    by replace (a - b + b) with a by ring; replace (0 + b) with b by ring. }
  intros t. subst t. cbn. by rewrite !Hneg, !Hpos.
Qed.

(** ** Recomputation without adjustments, in exact arithmetic *)

(** When every row of the grouped frame resolves to 0%, the loop over the
    grouped frame adds up to the sums over the rows of the loaded frame. *)
Lemma zero_pct_unchanged (df : list row) (ca fa : gmap string Qc) :
  (∀ c f, effective_pct ca fa c f = 0) →
  unchanged (calculate_totals df ca fa).
Proof.
  intros Hpct.
  assert (∀ counts k, weight counts (factor ca fa) k = weight counts (λ _, 1) k)
    as Hw.
  { intros counts [c f]. unfold weight, factor. cbn.
    rewrite Hpct. destruct (counts c); [|done]. unfold Qcdiv. ring. }
  assert (adjusted_spending (calculate_totals df ca fa)
          = original_spending (calculate_totals df ca fa)) as Hs.
  { rewrite adjusted_spending_grouped, original_spending_grouped.
    apply Qsum_fmap_ext. intros r _. by rewrite Hw. }
  assert (adjusted_revenue (calculate_totals df ca fa)
          = original_revenue (calculate_totals df ca fa)) as Hr.
  { rewrite adjusted_revenue_grouped, original_revenue_grouped.
    apply Qsum_fmap_ext. intros r _. by rewrite Hw. }
  split; [done|]. split; [done|].
  change (adjusted_revenue (calculate_totals df ca fa)
          - adjusted_spending (calculate_totals df ca fa)
          = original_revenue (calculate_totals df ca fa)
            - original_spending (calculate_totals df ca fa)).
  by rewrite Hs, Hr.
Qed.

Lemma number_input_all_zero (st : session) (k : string) :
  (∀ k v, st !! k = Some v → v = 0) → number_input st 0 k = 0.
Proof.
  intros Hst. unfold number_input.
  destruct (st !! k) as [v|] eqn:Hk; [|done]. by apply (Hst k).
Qed.

Lemma session_all_zero_pct (st : session) (gdf : list grow) (c f : string) :
  (∀ k v, st !! k = Some v → v = 0) →
  effective_pct (category_adjustments st gdf) (fund_adjustments st gdf) c f = 0.
Proof.
  intros Hst. unfold effective_pct.
  destruct (fund_adjustments st gdf !! f) as [v|] eqn:Hfa.
  - exfalso. pose proof (fund_adjustments_nonzero _ _ _ _ Hfa) as Hv.
    rewrite fund_adjustments_lookup in Hfa. apply last_Some_elem_of in Hfa.
    apply elem_of_all_writes in Hfa
      as [(c' & _ & _ & -> & _)|(c' & _ & _ & -> & _)];
      by rewrite number_input_all_zero in Hv.
  - change (default 0 (category_adjustments st gdf !! c) = 0).
    rewrite category_adjustments_lookup.
    assert (spend_all st = 0) as ->.
    { unfold spend_all, number_input.
      destruct (st !! "spend_all"%string) as [v|] eqn:Hk; [|done].
      by apply (Hst _ _ Hk). }
    assert (rev_all st = 0) as ->.
    { unfold rev_all, number_input.
      destruct (st !! "rev_all"%string) as [v|] eqn:Hk; [|done].
      by apply (Hst _ _ Hk). }
    repeat case_decide; cbn; by rewrite ?number_input_all_zero.
Qed.

(** In exact arithmetic the sums over the grouped frame regroup to the sums
    over the rows of the loaded frame: with every widget at 0% (or holding
    nothing), after a reset, and from two empty dictionaries, the adjusted
    totals are the original ones.  The script adds doubles, in another order
    on each side, so there the two agree up to rounding only. *)
Lemma zero_adjustments_reproduce_original (df : list row) (st : session) :
  (∀ k v, st !! k = Some v → v = 0) →
  unchanged (dashboard df st) ∧
  unchanged (dashboard df (reset st)) ∧
  unchanged (calculate_totals df ∅ ∅).
Proof.
  intros Hst. split; [|split].
  - apply zero_pct_unchanged. intros c f. by apply session_all_zero_pct.
  - apply zero_pct_unchanged. intros c f. apply session_all_zero_pct.
    intros k v. unfold reset. by rewrite lookup_empty.
  - apply zero_pct_unchanged. intros c f. unfold effective_pct.
    by rewrite !lookup_empty.
Qed.

(** ** Sessions that agree on the fund widgets *)

(** Two sessions that hold the same values under the widget keys of the
    funds store the same entries under every fund name. *)
Lemma fund_adjustments_agree (st st' : session) (gdf : list grow) :
  (∀ c f, st' !! fund_key "spend_fund_" c f = st !! fund_key "spend_fund_" c f) →
  (∀ c f, st' !! fund_key "rev_fund_" c f = st !! fund_key "rev_fund_" c f) →
  fund_adjustments st' gdf = fund_adjustments st gdf.
Proof.
  intros Hspend Hrev. apply map_eq. intros f.
  rewrite !fund_adjustments_lookup. f_equal.
  unfold all_writes, tab_writes, fund_writes, number_input. f_equal.
  - apply list_bind_ext; [|done]. intros c. f_equal.
    apply list_fmap_ext. intros i f' _. by rewrite Hspend.
  - apply list_bind_ext; [|done]. intros c. f_equal.
    apply list_fmap_ext. intros i f' _. by rewrite Hrev.
Qed.

(** ** Fund overrides *)

Lemma last_all_equal {A} (l : list A) (x : A) :
  (∀ y, y ∈ l → y = x) → x ∈ l → last l = Some x.
Proof.
  intros Hall Hx. destruct (last l) as [y|] eqn:Hl.
  - f_equal. apply Hall. by apply last_Some_elem_of.
  - apply last_None in Hl. subst l. by apply elem_of_nil in Hx.
Qed.

Lemma last_no_element {A} (l : list A) : (∀ y, y ∉ l) → last l = None.
Proof.
  intros Hall. apply last_None. destruct l as [|y l]; [done|].
  destruct (Hall y). left.
Qed.

(** The entry of a fund name that occurs under one category only: the input
    of the revenue tab when the category has one there and it is not 0,
    else the input of the spending tab when it is not 0, else none. *)
Lemma fund_adjustments_single (st : session) (gdf : list grow) (c f : string) :
  f ∈ funds_of gdf c →
  (∀ c', f ∈ funds_of gdf c' → c' = c) →
  fund_adjustments st gdf !! f
  = if decide (c ∈ revenue_fund_cats
               ∧ number_input st 0 (fund_key "rev_fund_" c f) ≠ 0)
    then Some (number_input st 0 (fund_key "rev_fund_" c f))
    else if decide (number_input st 0 (fund_key "spend_fund_" c f) ≠ 0)
         then Some (number_input st 0 (fund_key "spend_fund_" c f))
         else None.
Proof.
  intros Hf Hone. rewrite fund_adjustments_lookup. unfold all_writes.
  rewrite last_app.
  destruct (decide (c ∈ revenue_fund_cats ∧ _)) as [[Hc Hw]|Hno].
  - rewrite (last_all_equal _ (number_input st 0 (fund_key "rev_fund_" c f)));
      [done| |].
    + intros y (c' & _ & Hf' & -> & _)%elem_of_tab_writes.
      by rewrite (Hone c' Hf').
    + apply elem_of_tab_writes. by exists c.
  - rewrite last_no_element.
    2:{ intros y (c' & Hc' & Hf' & -> & Hy)%elem_of_tab_writes.
        rewrite (Hone c' Hf') in *. by apply Hno. }
    destruct (decide (number_input st 0 (fund_key "spend_fund_" c f) ≠ 0))
      as [Hw|Hw].
    + apply last_all_equal.
      * intros y (c' & _ & Hf' & -> & _)%elem_of_tab_writes.
        by rewrite (Hone c' Hf').
      * apply elem_of_tab_writes. exists c.
        by split; [eapply funds_of_categories|].
    + apply last_no_element.
      intros y (c' & Hc' & Hf' & -> & Hy)%elem_of_tab_writes.
      rewrite (Hone c' Hf') in *. by apply Hw.
Qed.

(** C5.  The entry is looked up by the fund name alone.  When two rows of
    the grouped frame carry the same fund name and the spending tab holds a
    nonzero input for the first one, the name has an entry, not 0, and both
    rows are adjusted by it, the second one whatever its own category and
    its own inputs. *)
Theorem fund_override_keyed_by_name (st : session) (gdf : list grow) (r1 r2 : grow) :
  r1 ∈ gdf → r2 ∈ gdf →
  g_fund r1 = g_fund r2 →
  number_input st 0 (fund_key "spend_fund_" (g_category r1) (g_fund r1)) ≠ 0 →
  let ca := category_adjustments st gdf in
  let fa := fund_adjustments st gdf in
  ∃ v, v ≠ 0 ∧ fa !! g_fund r1 = Some v ∧
       adjusted_value ca fa r1 = g_approp_m r1 * (1 + v / 100) ∧
       adjusted_value ca fa r2 = g_approp_m r2 * (1 + v / 100).
Proof.
  intros Hr1 Hr2 Hname Hw ca fa.
  destruct (fund_adjustments_registered st gdf (g_category r1) (g_fund r1))
    as (v & Hv & Hfa); [|by apply elem_of_funds_of|done|].
  { eapply funds_of_categories. by apply elem_of_funds_of. }
  exists v. split; [done|]. split; [done|].
  unfold adjusted_value, effective_pct. subst fa.
  by rewrite <-Hname, Hfa.
Qed.

Lemma fund_override_keyed_by_name_witness :
  GRow "State Trust Funds" "Road Fund" (Qc_of_Z 30) ∈ shared_gdf ∧
  number_input road_fund_down_20 0
    (fund_key "spend_fund_" "State Trust Funds" "Road Fund") = 0 ∧
  number_input road_fund_down_20 0
    (fund_key "rev_fund_" "State Trust Funds" "Road Fund") = 0 ∧
  ∃ v, v ≠ 0 ∧
       adjusted_value (category_adjustments road_fund_down_20 shared_gdf)
                      (fund_adjustments road_fund_down_20 shared_gdf)
                      (GRow "State Trust Funds" "Road Fund" (Qc_of_Z 30))
       = Qc_of_Z 30 * (1 + v / 100).
Proof.
  set (gdf := shared_gdf). set (st := road_fund_down_20).
  set (r2 := GRow "State Trust Funds" "Road Fund" (Qc_of_Z 30)).
  assert (r2 ∈ gdf) as Hr2.
  { apply elem_of_groupby_sum. split; [|Qc_compute].
    eexists. split; [right; left|reflexivity]. }
  split; [exact Hr2|]. split; [reflexivity|]. split; [reflexivity|].
  destruct (fund_override_keyed_by_name st gdf
              (GRow "Debt Service Funds" "Road Fund" (Qc_of_Z 50)) r2)
    as (v & Hv & _ & _ & Hadj); [|exact Hr2|reflexivity| |].
  - apply elem_of_groupby_sum. split; [|Qc_compute].
    eexists. split; [left|reflexivity].
  - intros H. apply (f_equal this) in H. vm_compute in H. discriminate.
  - exists v. split; [exact Hv|exact Hadj].
Defined.

(** ** Sums of terms that are at least 0 *)




(** ** Shares, in exact arithmetic *)

Lemma sum_shares_Some (l : list (option Qc)) (xs : list Qc) :
  l = Some <$> xs → sum_shares l = Some (Qsum xs).
Proof.
  intros ->. induction xs as [|x xs IH]; [done|].
  rewrite fmap_cons. cbn [sum_shares]. by rewrite IH.
Qed.

Lemma fdiv_pct (x y : Qc) :
  y ≠ 0 → (λ q, q * 100) <$> fdiv x y = Some (x * (/ y * 100)).
Proof.
  intros Hy. unfold fdiv. rewrite decide_False by done. cbn. f_equal.
  unfold Qcdiv. ring.
Qed.

(** In exact arithmetic the values of 'Fund % of Category' over the rows
    of a category whose total is not 0 add up to 100.  In doubles each share
    is rounded and so is their sum. *)
Lemma fund_shares_sum_to_100 (df : list row) (c : string) :
  let gdf := groupby_sum df in
  category_total gdf c ≠ 0 →
  sum_shares (fund_pct_of_category gdf <$> filter (λ r, g_category r = c) gdf)
  = Some 100.
Proof.
  intros gdf Htotal.
  rewrite (sum_shares_Some _
    ((λ r, g_approp_m r * (/ category_total gdf c * 100))
       <$> filter (λ r, g_category r = c) gdf)).
  - f_equal. rewrite Qsum_fmap_scale. fold (category_total gdf c).
    rewrite Qcmult_assoc, Qcmult_inv_r by done. ring.
  - rewrite <-list_fmap_compose. apply list_fmap_ext.
    intros i r Hr%list_elem_of_lookup_2. apply list_elem_of_filter in Hr as [Hc _].
    unfold fund_pct_of_category, compose. rewrite Hc. by apply fdiv_pct.
Qed.

(** The totals of the categories add up to the grand total. *)
Lemma category_totals_sum (gdf : list grow) :
  Qsum (category_total gdf <$> categories gdf) = total_appropriation gdf.
Proof.
  unfold category_total, total_appropriation, categories.
  pose proof (Qsum_regroup g_category g_approp_m (λ _, 1)
                (unique (g_category <$> gdf)) gdf) as Hre.
  rewrite (Qsum_fmap_ext _ (λ c, 1 * Qsum (g_approp_m <$>
             filter (λ r, g_category r = c) gdf)))
    by (intros; ring).
  rewrite Hre.
  - apply Qsum_fmap_ext. intros; ring.
  - apply NoDup_unique.
  - intros r Hr. apply elem_of_unique. by apply list_elem_of_fmap_2.
Qed.

(** In exact arithmetic the values of 'Category % of Total' over the
    categories of a loaded frame whose grand total is not 0 add up to 100.
    In doubles each share is rounded and so is their sum. *)
Lemma category_shares_sum_to_100 (df : list row) :
  let gdf := groupby_sum df in
  total_appropriation gdf ≠ 0 →
  sum_shares (category_pct_of_total gdf <$> categories gdf) = Some 100.
Proof.
  intros gdf Htotal.
  rewrite (sum_shares_Some _
    ((λ c, category_total gdf c * (/ total_appropriation gdf * 100))
       <$> categories gdf)).
  - f_equal. rewrite Qsum_fmap_scale, category_totals_sum.
    rewrite Qcmult_assoc, Qcmult_inv_r by done. ring.
  - rewrite <-list_fmap_compose. apply list_fmap_ext. intros i x _.
    unfold category_pct_of_total, compose. by apply fdiv_pct.
Qed.

(** On a loaded frame whose amounts add up to 0 the division by the grand
    total gives no number, so the shares do not add up to 100. *)
Lemma category_shares_zero_total :
  total_appropriation zero_gdf = 0 ∧
  sum_shares (category_pct_of_total zero_gdf <$> categories zero_gdf) = None ∧
  sum_shares (category_pct_of_total zero_gdf <$> categories zero_gdf)
    ≠ Some 100.
Proof.
  split; [Qc_compute|]. split; [by vm_compute|]. vm_compute. discriminate.
Qed.

(** ** Recomputation without adjustments, as the script adds *)






(** ** Revenue categories take their percentage from the revenue tab *)

(** C4.  For a revenue category, the entry of [category_adjustments] is the
    value of its widget in the revenue tab; a row of the category whose fund
    name has no entry of its own is added to the adjusted revenue and to the
    adjusted spending with that percentage; and two sessions that differ at
    most in the value of the category's widget in the spending tab give the
    same totals. *)
Theorem revenue_tab_overrides_spending_tab
    (df : list row) (st st' : session) (c : string) :
  c ∈ revenue_fund_cats →
  (∀ k, k ≠ "spend_cat_" +:+ c → st' !! k = st !! k) →
  category_adjustments st (groupby_sum df) !! c
    = Some (number_input st (rev_all st) ("rev_cat_" +:+ c)) ∧
  (∀ r acc,
     g_category r = c →
     fund_adjustments st (groupby_sum df) !! g_fund r = None →
     totals_step (category_adjustments st (groupby_sum df))
                 (fund_adjustments st (groupby_sum df)) acc r
     = (acc.1 + g_approp_m r
                * (1 + number_input st (rev_all st) ("rev_cat_" +:+ c) / 100),
        acc.2 + g_approp_m r
                * (1 + number_input st (rev_all st) ("rev_cat_" +:+ c) / 100))) ∧
  dashboard df st' = dashboard df st.
Proof.
  intros Hc Hst.
  assert (category_adjustments st (groupby_sum df) !! c
          = Some (number_input st (rev_all st) ("rev_cat_" +:+ c))) as Hentry.
  { rewrite category_adjustments_lookup. by rewrite decide_True. }
  split; [done|]. split.
  { intros r acc Hr Hfa. unfold totals_step, adjusted_value, effective_pct.
    rewrite Hfa, Hr, Hentry. cbn [default from_option id].
    by rewrite decide_True. }
  unfold dashboard. cbv zeta.
  assert (rev_all st' = rev_all st) as Hrev.
  { unfold rev_all, number_input. by rewrite Hst. }
  assert (spend_all st' = spend_all st) as Hspend.
  { unfold spend_all, number_input. by rewrite Hst. }
  assert (category_adjustments st' (groupby_sum df)
          = category_adjustments st (groupby_sum df)) as ->.
  { apply map_eq. intros c'. rewrite !category_adjustments_lookup.
    rewrite Hrev, Hspend. unfold number_input.
    destruct (decide (c' ∈ revenue_fund_cats)) as [Hc'|Hc'].
    - rewrite (Hst ("rev_cat_" +:+ c')); [done|]. intros [=].
    - rewrite (Hst ("spend_cat_" +:+ c')); [done|]. intros [= Heq].
      change (c' = c) in Heq. by subst c'. }
  rewrite (fund_adjustments_agree st st'); [done| |].
  - intros c' f. apply Hst. unfold fund_key. intros [=].
  - intros c' f. apply Hst. unfold fund_key. intros [=].
Qed.

Lemma revenue_tab_overrides_spending_tab_witness :
  totals_step (category_adjustments category_up_10 (groupby_sum scenario_df))
              (fund_adjustments category_up_10 (groupby_sum scenario_df))
              (0, 0) (GRow "General Funds" "F2" (Qc_of_Z 200))
  = (0 + Qc_of_Z 200 * (1 + Qc_of_Z 10 / 100),
     0 + Qc_of_Z 200 * (1 + Qc_of_Z 10 / 100)) ∧
  dashboard scenario_df
            (<["spend_cat_General Funds"%string := Qc_of_Z 25]> category_up_10)
  = dashboard scenario_df category_up_10.
Proof.
  destruct (revenue_tab_overrides_spending_tab
              scenario_df category_up_10
              (<["spend_cat_General Funds"%string := Qc_of_Z 25]> category_up_10)
              "General Funds") as (_ & Hstep & Hsame).
  - unfold revenue_fund_cats. left.
  - intros k Hk. apply lookup_insert_ne. intros <-. apply Hk. reflexivity.
  - split; [|exact Hsame].
    apply (Hstep (GRow "General Funds" "F2" (Qc_of_Z 200)) (0, 0));
      reflexivity.
Defined.

(** ** Fund overrides, with what a row adds to the totals *)

(** C2, as the code has it.  In a run of the script an entry of
    [fund_adjustments] is never 0.  A row whose fund name has an entry is
    added to the totals with its value times 1 plus that entry over 100,
    whatever the value of its category; a row whose fund name has none is
    added with the value of its category, 0 when the category has none.  For
    a fund whose name occurs under one category only, the entry is its own
    input when that is not 0 (the revenue tab's before the spending tab's),
    and there is no entry once both inputs are back at 0.  A name that occurs
    under several categories has one entry for all of them. *)
Theorem fund_override_precedence (st : session) (gdf : list grow) (r : grow) :
  r ∈ gdf →
  let ca := category_adjustments st gdf in
  let fa := fund_adjustments st gdf in
  let spend_pct :=
    number_input st 0 (fund_key "spend_fund_" (g_category r) (g_fund r)) in
  let rev_pct :=
    number_input st 0 (fund_key "rev_fund_" (g_category r) (g_fund r)) in
  (∀ v, fa !! g_fund r = Some v →
        v ≠ 0 ∧
        ∀ acc, totals_step ca fa acc r
               = (if decide (g_category r ∈ revenue_fund_cats)
                  then acc.1 + g_approp_m r * (1 + v / 100) else acc.1,
                  acc.2 + g_approp_m r * (1 + v / 100))) ∧
  (fa !! g_fund r = None →
   ∀ acc, totals_step ca fa acc r
          = (if decide (g_category r ∈ revenue_fund_cats)
             then acc.1 + g_approp_m r
                          * (1 + default 0 (ca !! g_category r) / 100)
             else acc.1,
             acc.2 + g_approp_m r
                     * (1 + default 0 (ca !! g_category r) / 100))) ∧
  ((∀ c', g_fund r ∈ funds_of gdf c' → c' = g_category r) →
   fa !! g_fund r
   = if decide (g_category r ∈ revenue_fund_cats ∧ rev_pct ≠ 0)
     then Some rev_pct
     else if decide (spend_pct ≠ 0) then Some spend_pct else None).
Proof.
  intros Hr ca fa spend_pct rev_pct. split; [|split].
  - intros v Hv. split; [by eapply fund_adjustments_nonzero|].
    intros acc. unfold totals_step, adjusted_value, effective_pct.
    by rewrite Hv.
  - intros Hv acc. unfold totals_step, adjusted_value, effective_pct.
    by rewrite Hv.
  - intros Hone. subst fa.
    by rewrite (fund_adjustments_single st gdf (g_category r) (g_fund r)
                  (elem_of_funds_of gdf r Hr) Hone).
Qed.

Lemma fund_override_precedence_witness :
  Qc_of_Z (-20) ≠ 0 ∧
  totals_step (category_adjustments then_fund_down_20 scenario_gdf)
              (fund_adjustments then_fund_down_20 scenario_gdf)
              (0, 0) (GRow "General Funds" "F1" (Qc_of_Z 100))
  = (0 + Qc_of_Z 100 * (1 + Qc_of_Z (-20) / 100),
     0 + Qc_of_Z 100 * (1 + Qc_of_Z (-20) / 100)).
Proof.
  destruct (fund_override_precedence then_fund_down_20 scenario_gdf
              (GRow "General Funds" "F1" (Qc_of_Z 100))) as (Hsome & _ & _).
  - apply elem_of_groupby_sum. split; [|Qc_compute].
    eexists. split; [left|reflexivity].
  - destruct (Hsome (Qc_of_Z (-20))) as [Hnz Hstep]; [reflexivity|].
    split; [exact Hnz|]. exact (Hstep (0, 0)).
Defined.

(** C2, as stated, fails for a fund name shared by two categories.  With the
    Road Fund of State Trust Funds at +50%, the Road Fund of Debt Service
    Funds has both its own inputs at 0 and its category at 0%, and still it
    resolves to 50% and is added with 50 * 1.5 = 75, not with 50. *)
Lemma fund_override_shared_name :
  GRow "Debt Service Funds" "Road Fund" (Qc_of_Z 50) ∈ shared_gdf ∧
  number_input other_road_fund_up_50 0
    (fund_key "spend_fund_" "Debt Service Funds" "Road Fund") = 0 ∧
  number_input other_road_fund_up_50 0
    (fund_key "rev_fund_" "Debt Service Funds" "Road Fund") = 0 ∧
  default 0 (category_adjustments other_road_fund_up_50 shared_gdf
               !! "Debt Service Funds"%string) = 0 ∧
  effective_pct (category_adjustments other_road_fund_up_50 shared_gdf)
                (fund_adjustments other_road_fund_up_50 shared_gdf)
                "Debt Service Funds" "Road Fund" = Qc_of_Z 50 ∧
  adjusted_value (category_adjustments other_road_fund_up_50 shared_gdf)
                 (fund_adjustments other_road_fund_up_50 shared_gdf)
                 (GRow "Debt Service Funds" "Road Fund" (Qc_of_Z 50))
  = Qc_of_Z 75 ∧
  adjusted_value (category_adjustments other_road_fund_up_50 shared_gdf)
                 (fund_adjustments other_road_fund_up_50 shared_gdf)
                 (GRow "Debt Service Funds" "Road Fund" (Qc_of_Z 50))
  ≠ Qc_of_Z 50 * (1 + 0 / 100).
Proof.
  split.
  { apply elem_of_groupby_sum. split; [|Qc_compute].
    eexists. split; [left|reflexivity]. }
  split; [reflexivity|]. split; [reflexivity|]. split; [reflexivity|].
  split; [reflexivity|]. split; [Qc_compute|].
  intros H. apply (f_equal this) in H. vm_compute in H. discriminate H.
Qed.

(** ** No surplus after the adjustments *)




(** ** The scenario *)

(** C7, as the code has it.  On the dataset of the scenario, with General
    Funds as the revenue category A and Debt Service Funds as the category
    B, and the +10% of General Funds entered in the revenue tab, the script
    returns in doubles an adjusted revenue of 330.00000000000006, an adjusted
    spending of 380 and an adjusted deficit of -49.99999999999994, each
    within 2^-40 of 330, 380 and -50; with F1 at -20% on top of it, F2
    staying at +10%, it returns 300, 350 and -50. *)
Theorem scenario_totals :
  (Double.adjusted_revenue
     (Double.dashboard Double.scenario_df Double.category_up_10)
   = 0x1.4a00000000001p+8%float ∧
   Double.adjusted_spending
     (Double.dashboard Double.scenario_df Double.category_up_10)
   = 380%float ∧
   Double.adjusted_deficit
     (Double.dashboard Double.scenario_df Double.category_up_10)
   = (-0x1.8fffffffffff8p+5)%float) ∧
  (PrimFloat.ltb
     (PrimFloat.abs
        (Double.adjusted_revenue
           (Double.dashboard Double.scenario_df Double.category_up_10) - 330))
     0x1p-40 = true ∧
   PrimFloat.ltb
     (PrimFloat.abs
        (Double.adjusted_deficit
           (Double.dashboard Double.scenario_df Double.category_up_10) - -50))
     0x1p-40 = true) ∧
  (Double.adjusted_revenue
     (Double.dashboard Double.scenario_df Double.then_fund_down_20)
   = 300%float ∧
   Double.adjusted_spending
     (Double.dashboard Double.scenario_df Double.then_fund_down_20)
   = 350%float ∧
   Double.adjusted_deficit
     (Double.dashboard Double.scenario_df Double.then_fund_down_20)
   = (-50)%float).
Proof. repeat split; by vm_compute. Qed.

(** C7, as stated, fails in doubles at +10%: 100 * (1 + 10 / 100) is
    110.00000000000001 and 200 * (1 + 10 / 100) is 220.00000000000003, so the
    adjusted revenue is not 330 and the adjusted deficit is not -50. *)
Lemma scenario_totals_rounded :
  Double.adjusted_revenue
    (Double.dashboard Double.scenario_df Double.category_up_10) ≠ 330%float ∧
  Double.adjusted_deficit
    (Double.dashboard Double.scenario_df Double.category_up_10) ≠ (-50)%float.
Proof. split; vm_compute; intros H; discriminate H. Qed.

(** ** The sum of NumPy, in doubles *)

(** The fuel of [pairwise_sum] is the length of the array, and that is
    enough: each half of an array of more than 128 values is shorter than
    the array. *)
Lemma pairwise_sum_fuel (fuel1 fuel2 : nat) (a : list float) :
  (length a ≤ fuel1)%nat → (length a ≤ fuel2)%nat →
  Double.pairwise_sum fuel1 a = Double.pairwise_sum fuel2 a.
Proof.
  revert fuel2 a. induction fuel1 as [|fuel1 IH]; intros fuel2 a H1 H2.
  - destruct a; [|cbn in H1; lia]. by destruct fuel2.
  - destruct fuel2 as [|fuel2].
    { destruct a; [done|cbn in H2; lia]. }
    cbn [Double.pairwise_sum].
    destruct (decide (length a < 8)%nat); [done|].
    destruct (decide (length a ≤ 128)%nat); [done|].
    assert (0 < length a / 2 - (length a / 2) mod 8 < length a)%nat as Hn2.
    { pose proof (Nat.div_mod_eq (length a) 2).
      pose proof (Nat.mod_upper_bound (length a) 2).
      pose proof (Nat.mod_upper_bound (length a / 2) 8). lia. }
    f_equal; apply IH; rewrite ?length_take, ?length_drop; lia.
Qed.

(** ** Shares, in doubles *)

(** The shares of F1 and F2 in General Funds, 100 and 200 of 300, are
    33.33333333333333 and 66.66666666666666 in doubles and add up to
    99.99999999999999. *)
Lemma fund_shares_rounded :
  Double.series_sum
    (Double.fund_pct_of_category (Double.groupby_sum Double.scenario_df)
       <$> filter (λ r, Double.g_category r = "General Funds"%string)
                  (Double.groupby_sum Double.scenario_df))
  = 0x1.8ffffffffffffp+6%float.
Proof. by vm_compute. Qed.

(** The shares of three categories of $1M each are 33.33333333333333 each
    in doubles and add up to 99.99999999999999. *)
Lemma category_shares_rounded :
  Double.series_sum
    (Double.category_pct_of_total (Double.groupby_sum Double.three_categories_df)
       <$> Double.categories (Double.groupby_sum Double.three_categories_df))
  = 0x1.8ffffffffffffp+6%float.
Proof. by vm_compute. Qed.

(** * Further properties of the script *)

(** ** The loader, continued *)

(** X1.  A NaN amount in the loaded frame only comes from text that
    [to_numeric] cannot read: the sheet has a row of the same category and
    fund whose amount cell is such a text.  Blank cells and numbers never
    give one. *)
Theorem load_data_nan_only_from_text
    (str_to_num : string → option Qc) (xlsx : list raw_row) (r : row) :
  r ∈ load_data str_to_num xlsx →
  approp r = None →
  ∃ s, RawRow (Some (category r)) (Some (fund r)) (Str s) ∈ xlsx
       ∧ str_to_num s = None.
Proof.
  unfold load_data, dropna. intros Hr Hnan.
  apply list_elem_of_fmap in Hr as (k & -> & Hk).
  apply list_elem_of_omap in Hk as ([c f a] & Hin & Hdrop).
  unfold dropna_row in Hdrop. cbn in Hdrop.
  destruct c as [c|]; [|done]. destruct f as [f|]; [|done].
  destruct a as [|x|s]; [done| |]; injection Hdrop as <-; cbn in *; [done|].
  by exists s.
Qed.

Lemma load_data_nan_only_from_text_witness :
  ∃ s, RawRow (Some "General Funds"%string) (Some "F9"%string) (Str s)
         ∈ sheet_with_text
       ∧ read_numeral s = None.
Proof.
  apply (load_data_nan_only_from_text read_numeral sheet_with_text
           (Row "General Funds" "F9" None None)).
  - unfold sheet_with_text. right. left.
  - reflexivity.
Defined.

(** X2.  A numeric amount is kept as it is, next to its value in millions. *)
Theorem load_data_keeps_numbers
    (str_to_num : string → option Qc) (xlsx : list raw_row)
    (c f : string) (x : Qc) :
  RawRow (Some c) (Some f) (Num x) ∈ xlsx →
  Row c f (Some x) (Some (x / million)) ∈ load_data str_to_num xlsx.
Proof.
  intros Hin. unfold load_data. apply list_elem_of_fmap.
  exists (KeptRow c f (Num x)). split; [done|].
  unfold dropna. apply list_elem_of_omap.
  exists (RawRow (Some c) (Some f) (Num x)). by split.
Qed.

Lemma load_data_keeps_numbers_witness :
  Row "General Funds" "F1" (Some (Qc_of_Z 100000000))
      (Some (Qc_of_Z 100000000 / million))
    ∈ load_data read_numeral scenario_sheet.
Proof.
  apply (load_data_keeps_numbers read_numeral scenario_sheet).
  unfold scenario_sheet. left.
Defined.

(** X3.  A row with a blank category, a blank fund or a blank amount leaves
    no trace: the loaded frame is the one of the sheet without it. *)
Theorem load_data_ignores_incomplete_row
    (str_to_num : string → option Qc) (before after : list raw_row)
    (r : raw_row) :
  raw_category r = None ∨ raw_fund r = None ∨ raw_approp r = NA →
  load_data str_to_num (before ++ r :: after)
  = load_data str_to_num (before ++ after).
Proof.
  intros Hblank. unfold load_data, dropna.
  rewrite !omap_app. cbn [omap list_omap].
  assert (dropna_row r = None) as ->; [|done].
  destruct r as [c f a]. unfold dropna_row. cbn in *.
  destruct Hblank as [->|[->| ->]]; [done| |].
  - by destruct c.
  - by destruct c, f.
Qed.

Lemma load_data_ignores_incomplete_row_witness :
  load_data read_numeral scenario_sheet_with_blank
  = load_data read_numeral scenario_sheet.
Proof.
  apply (load_data_ignores_incomplete_row read_numeral
           [RawRow (Some "General Funds"%string) (Some "F1"%string)
                   (Num (Qc_of_Z 100000000))]
           [RawRow (Some "General Funds"%string) (Some "F2"%string)
                   (Num (Qc_of_Z 200000000));
            RawRow (Some "Debt Service Funds"%string) (Some "F3"%string)
                   (Num (Qc_of_Z 50000000))]
           (RawRow (Some "General Funds"%string) None
                   (Num (Qc_of_Z 70000000)))).
  right. left. reflexivity.
Defined.

(** ** The grouped frame, continued *)

Lemma groupby_sum_keys (df : list row) :
  grow_key <$> groupby_sum df = group_keys df.
Proof.
  unfold groupby_sum. rewrite <-list_fmap_compose.
  rewrite (list_fmap_ext _ id (group_keys df)); [apply list_fmap_id|].
  by intros i [c f] _.
Qed.

Global Instance key_le_total : Total key_le.
Proof.
  intros [c1 f1] [c2 f2]. unfold key_le, key_leb. cbn.
  rewrite (String.compare_antisym c1 c2).
  destruct (String.compare c2 c1); cbn; [|by right|by left].
  destruct (String.leb_total f1 f2) as [H|H]; rewrite H; [by left|by right].
Qed.

(** X4.  The grouped frame has one row for each pair of category and fund of
    the loaded frame and no other row: no pair occurs twice, and the pairs
    are those of the loaded rows. *)
Theorem groupby_one_row_per_pair (df : list row) :
  NoDup (grow_key <$> groupby_sum df) ∧
  ∀ c f, (c, f) ∈ grow_key <$> groupby_sum df
         ↔ ∃ x, x ∈ df ∧ category x = c ∧ fund x = f.
Proof.
  split; [apply NoDup_groupby_keys|]. intros c f.
  rewrite groupby_sum_keys, elem_of_group_keys, list_elem_of_fmap. split.
  - intros (x & [= -> ->] & Hx). by exists x.
  - intros (x & Hx & <- & <-). by exists x.
Qed.

(** X5.  The rows of the grouped frame come in the order of their keys,
    the category first and the fund next. *)
Theorem groupby_sorted (df : list row) :
  Sorted key_le (grow_key <$> groupby_sum df).
Proof.
  rewrite groupby_sum_keys. unfold group_keys. apply Sorted_merge_sort, _.
Qed.




(** ** The two dictionaries, continued *)

Lemma elem_of_categories (gdf : list grow) (c : string) :
  c ∈ categories gdf ↔ ∃ r, r ∈ gdf ∧ g_category r = c.
Proof.
  unfold categories. rewrite elem_of_unique, list_elem_of_fmap. split.
  - intros (r & -> & Hr). by exists r.
  - intros (r & Hr & <-). by exists r.
Qed.

Lemma elem_of_funds_of_iff (gdf : list grow) (c f : string) :
  f ∈ funds_of gdf c ↔ ∃ r, r ∈ gdf ∧ g_category r = c ∧ g_fund r = f.
Proof.
  unfold funds_of. rewrite elem_of_unique, list_elem_of_fmap. split.
  - intros (r & -> & [Hc Hr]%list_elem_of_filter). by exists r.
  - intros (r & Hr & Hc & <-). exists r. split; [done|].
    by apply list_elem_of_filter.
Qed.

(** X9.  After both tabs, [category_adjustments] has an entry for every
    category of the grouped frame and for each of the four revenue
    categories, whether the data has rows of it or not, and for no other
    name. *)
Theorem category_adjustments_entries (st : session) (gdf : list grow) (c : string) :
  is_Some (category_adjustments st gdf !! c)
  ↔ (∃ r, r ∈ gdf ∧ g_category r = c) ∨ c ∈ revenue_fund_cats.
Proof.
  rewrite category_adjustments_lookup, <-elem_of_categories.
  destruct (decide (c ∈ revenue_fund_cats)) as [Hrev|Hrev].
  - split; [by right|by eexists].
  - destruct (decide (c ∈ categories gdf)) as [Hc|Hc].
    + split; [by left|by eexists].
    + split; [by intros [? ?]|by intros [?|?]].
Qed.

(** X10.  A category of the data that is not a revenue category holds the
    input of its widget in the spending tab; the widget starts from the
    "Adjust All" value of that tab. *)
Theorem spending_tab_sets_other_categories
    (st : session) (gdf : list grow) (r : grow) :
  r ∈ gdf →
  g_category r ∉ revenue_fund_cats →
  category_adjustments st gdf !! g_category r
  = Some (number_input st (spend_all st) ("spend_cat_" +:+ g_category r)).
Proof.
  intros Hr Hrev. rewrite category_adjustments_lookup.
  rewrite decide_False by done. rewrite decide_True; [done|].
  apply elem_of_categories. by exists r.
Qed.

Lemma spending_tab_sets_other_categories_witness :
  category_adjustments spend_all_up_10 scenario_gdf !! "Debt Service Funds"%string
  = Some (Qc_of_Z 10).
Proof.
  refine (spending_tab_sets_other_categories spend_all_up_10 scenario_gdf
            (GRow "Debt Service Funds" "F3" (Qc_of_Z 50)) _ _).
  - apply elem_of_groupby_sum. split; [|Qc_compute].
    eexists. split; [right; right; left|reflexivity].
  - unfold revenue_fund_cats. cbn.
    rewrite !elem_of_cons, elem_of_nil. intros [H|[H|[H|[H|[]]]]]; discriminate.
Defined.

(** X11.  An entry of [fund_adjustments] is the input, not 0, of a widget of
    a fund of that name in the grouped frame: of the spending tab, or of the
    revenue tab when the fund is in a revenue category. *)
Theorem fund_adjustments_provenance
    (st : session) (gdf : list grow) (f : string) (v : Qc) :
  fund_adjustments st gdf !! f = Some v →
  v ≠ 0 ∧
  ∃ r, r ∈ gdf ∧ g_fund r = f ∧
       (v = number_input st 0 (fund_key "spend_fund_" (g_category r) f)
        ∨ (g_category r ∈ revenue_fund_cats
           ∧ v = number_input st 0 (fund_key "rev_fund_" (g_category r) f))).
Proof.
  intros Hfa. split; [by eapply fund_adjustments_nonzero|].
  rewrite fund_adjustments_lookup in Hfa. apply last_Some_elem_of in Hfa.
  apply elem_of_all_writes in Hfa
    as [(c & _ & Hf & -> & _)|(c & Hc & Hf & -> & _)];
    apply elem_of_funds_of_iff in Hf as (r & Hr & <- & <-);
    exists r; (split; [done|]); (split; [done|]); [by left|by right].
Qed.

Lemma fund_adjustments_provenance_witness :
  Qc_of_Z (-20) ≠ 0 ∧
  ∃ r, r ∈ scenario_gdf ∧ g_fund r = "F1"%string ∧
       (Qc_of_Z (-20)
        = number_input then_fund_down_20 0
            (fund_key "spend_fund_" (g_category r) "F1")
        ∨ (g_category r ∈ revenue_fund_cats
           ∧ Qc_of_Z (-20)
             = number_input then_fund_down_20 0
                 (fund_key "rev_fund_" (g_category r) "F1"))).
Proof.
  apply (fund_adjustments_provenance then_fund_down_20 scenario_gdf "F1").
  reflexivity.
Defined.

Lemma number_input_bounds (st : session) (value lo hi : Qc) (k : string) :
  (∀ k v, st !! k = Some v → lo ≤ v ∧ v ≤ hi) →
  lo ≤ value ∧ value ≤ hi →
  lo ≤ number_input st value k ∧ number_input st value k ≤ hi.
Proof.
  intros Hst Hvalue. unfold number_input.
  destruct (st !! k) as [v|] eqn:Hk; [by apply (Hst k)|done].
Qed.

(** X12.  When every value the session holds is between -100 and 100, as the
    bounds of the widgets make it, every percentage the loop over the grouped
    frame resolves is between -100 and 100. *)
Theorem effective_pct_within_bounds
    (st : session) (gdf : list grow) (c f : string) :
  (∀ k v, st !! k = Some v → Qc_of_Z (-100) ≤ v ∧ v ≤ 100) →
  Qc_of_Z (-100)
    ≤ effective_pct (category_adjustments st gdf) (fund_adjustments st gdf) c f
  ∧ effective_pct (category_adjustments st gdf) (fund_adjustments st gdf) c f
    ≤ 100.
Proof.
  intros Hst.
  assert (Qc_of_Z (-100) ≤ 0 ∧ 0 ≤ 100) as Hzero by done.
  assert (∀ value k, Qc_of_Z (-100) ≤ value ∧ value ≤ 100 →
            Qc_of_Z (-100) ≤ number_input st value k
            ∧ number_input st value k ≤ 100) as Hinput.
  { intros value k. by apply number_input_bounds. }
  unfold effective_pct.
  destruct (fund_adjustments st gdf !! f) as [v|] eqn:Hfa.
  - rewrite fund_adjustments_lookup in Hfa. apply last_Some_elem_of in Hfa.
    apply elem_of_all_writes in Hfa
      as [(c' & _ & _ & -> & _)|(c' & _ & _ & -> & _)]; by apply Hinput.
  - change (Qc_of_Z (-100) ≤ default 0 (category_adjustments st gdf !! c)
            ∧ default 0 (category_adjustments st gdf !! c) ≤ 100).
    rewrite category_adjustments_lookup.
    repeat case_decide; cbn; [| |done]; apply Hinput.
    + unfold rev_all. by apply Hinput, Hinput.
    + unfold spend_all. by apply Hinput, Hinput.
Qed.

Lemma effective_pct_within_bounds_witness :
  Qc_of_Z (-100)
    ≤ effective_pct (category_adjustments category_up_10 scenario_gdf)
        (fund_adjustments category_up_10 scenario_gdf) "General Funds" "F1"
  ∧ effective_pct (category_adjustments category_up_10 scenario_gdf)
        (fund_adjustments category_up_10 scenario_gdf) "General Funds" "F1"
    ≤ 100.
Proof.
  apply (effective_pct_within_bounds category_up_10 scenario_gdf).
  intros k v Hk. unfold category_up_10 in Hk.
  apply lookup_singleton_Some in Hk as [_ <-]. split; vm_compute; discriminate.
Defined.

(** ** The totals, continued *)

(** X14.  The category inputs of the revenue tab, its "Adjust All" included,
    do not reach the rows outside the revenue categories: in two sessions
    that differ in them only, such a row is added to the totals with the
    same adjusted value. *)
Theorem revenue_tab_categories_leave_other_rows
    (gdf : list grow) (st st' : session) (r : grow) :
  (∀ k, k ≠ "rev_all"%string → (∀ c, k ≠ "rev_cat_" +:+ c) →
        st' !! k = st !! k) →
  g_category r ∉ revenue_fund_cats →
  adjusted_value (category_adjustments st' gdf) (fund_adjustments st' gdf) r
  = adjusted_value (category_adjustments st gdf) (fund_adjustments st gdf) r.
Proof.
  intros Hst Hrev.
  assert (fund_adjustments st' gdf = fund_adjustments st gdf) as ->.
  { apply fund_adjustments_agree; intros c f; apply Hst; unfold fund_key;
      try (intros [=]); intros c' [=]. }
  assert (spend_all st' = spend_all st) as Hspend.
  { unfold spend_all, number_input.
    rewrite (Hst "spend_all"%string); [done|intros [=]|intros c [=]]. }
  unfold adjusted_value, effective_pct.
  assert (category_adjustments st' gdf !! g_category r
          = category_adjustments st gdf !! g_category r) as ->; [|done].
  rewrite !category_adjustments_lookup.
  destruct (decide (g_category r ∈ revenue_fund_cats)); [done|].
  destruct (decide (g_category r ∈ categories gdf)); [|done].
  rewrite Hspend. unfold number_input.
  rewrite (Hst ("spend_cat_" +:+ g_category r)); [done|intros [=]|intros c [=]].
Qed.

Lemma revenue_tab_categories_leave_other_rows_witness :
  adjusted_value (category_adjustments category_up_10 scenario_gdf)
                 (fund_adjustments category_up_10 scenario_gdf)
                 (GRow "Debt Service Funds" "F3" (Qc_of_Z 50))
  = adjusted_value (category_adjustments ∅ scenario_gdf)
                   (fund_adjustments ∅ scenario_gdf)
                   (GRow "Debt Service Funds" "F3" (Qc_of_Z 50)).
Proof.
  apply (revenue_tab_categories_leave_other_rows scenario_gdf ∅ category_up_10).
  - intros k Hall Hcat. unfold category_up_10.
    rewrite lookup_singleton_ne; [done|].
    intros <-. by apply (Hcat "General Funds"%string).
  - unfold revenue_fund_cats. cbn.
    rewrite !elem_of_cons, elem_of_nil. intros [H|[H|[H|[H|[]]]]]; discriminate.
Defined.



(** ** The adjustment log *)

Lemma foldl_log_category (acc : log_state) (l : list (string * Qc)) :
  foldl log_category acc l
  = (acc.1 ++ (log_line_of <$> filter (λ it, it.2 ≠ 0) l),
     acc.2 || bool_decide (filter (λ it : string * Qc, it.2 ≠ 0) l ≠ [])).
Proof.
  revert acc. induction l as [|it l IH]; intros [lines any].
  - cbn. by rewrite app_nil_r, orb_false_r.
  - cbn [foldl]. rewrite IH. unfold log_category at 1 2. cbn [fst snd].
    destruct (decide (it.2 ≠ 0)) as [Hnz|Hz].
    + rewrite filter_cons_True by done. cbn [fst snd].
      rewrite fmap_cons, <-app_assoc. cbn. by rewrite orb_true_r.
    + by rewrite filter_cons_False by done.
Qed.

Lemma foldl_log_fund (acc : log_state) (l : list (string * Qc)) :
  foldl log_fund acc l
  = (acc.1 ++ (log_line_of <$> l), acc.2 || bool_decide (l ≠ [])).
Proof.
  revert acc. induction l as [|it l IH]; intros [lines any].
  - cbn. by rewrite app_nil_r, orb_false_r.
  - cbn [foldl]. rewrite IH. unfold log_fund at 1 2. cbn [fst snd].
    rewrite fmap_cons, <-app_assoc. cbn. by rewrite orb_true_r.
Qed.

Lemma adjustment_log_eq (ca fa : gmap string Qc) :
  adjustment_log ca fa
  = ((log_line_of <$> filter (λ it, it.2 ≠ 0) (map_to_list ca))
       ++ (log_line_of <$> map_to_list fa),
     bool_decide (filter (λ it : string * Qc, it.2 ≠ 0) (map_to_list ca) ≠ [])
     || bool_decide (map_to_list fa ≠ [])).
Proof.
  unfold adjustment_log. by rewrite foldl_log_fund, foldl_log_category.
Qed.

Lemma no_adjustments_yet_iff (ca fa : gmap string Qc) :
  no_adjustments_yet ca fa = true
  ↔ (∀ c v, ca !! c = Some v → v = 0) ∧ fa = ∅.
Proof.
  unfold no_adjustments_yet. rewrite adjustment_log_eq. cbn [snd].
  rewrite negb_true_iff, orb_false_iff, !bool_decide_eq_false.
  rewrite map_to_list_empty_iff. split.
  - intros [Hca Hfa]. split; [|by destruct (decide (fa = ∅))].
    intros c v Hc. destruct (decide (v = 0)) as [|Hv]; [done|].
    destruct Hca. intros Hnil.
    assert ((c, v) ∈ filter (λ it : string * Qc, it.2 ≠ 0) (map_to_list ca))
      as Hin.
    { apply list_elem_of_filter. split; [done|]. by apply elem_of_map_to_list. }
    rewrite Hnil in Hin. by apply elem_of_nil in Hin.
  - intros [Hca ->]. split; [|by intros []].
    intros Hne. apply Hne.
    destruct (filter _ (map_to_list ca)) as [|[c v] l] eqn:Hl; [done|].
    assert ((c, v) ∈ filter (λ it : string * Qc, it.2 ≠ 0) (map_to_list ca))
      as [Hv Hin]%list_elem_of_filter by (rewrite Hl; left).
    apply elem_of_map_to_list in Hin. cbn in Hv. by destruct (Hv (Hca c v Hin)).
Qed.

(** X18.  The log has a line for a name exactly when the name has an entry
    in [category_adjustments] that is not 0, or any entry in
    [fund_adjustments]; the line shows that entry, in green when it is above
    0 and in red otherwise. *)
Theorem adjustment_log_lines (ca fa : gmap string Qc) (line : log_line) :
  line ∈ (adjustment_log ca fa).1
  ↔ log_color line = pct_color (log_pct line)
    ∧ ((ca !! log_name line = Some (log_pct line) ∧ log_pct line ≠ 0)
       ∨ fa !! log_name line = Some (log_pct line)).
Proof.
  rewrite adjustment_log_eq. cbn [fst].
  rewrite elem_of_app, !list_elem_of_fmap. split.
  - intros [([c v] & -> & [Hv Hin]%list_elem_of_filter)|([f v] & -> & Hin)];
      apply elem_of_map_to_list in Hin; cbn in *; (split; [done|]);
      [by left|by right].
  - destruct line as [name col pct]. cbn. intros [-> [[Hca Hv]|Hfa]].
    + left. exists (name, pct). split; [done|].
      apply list_elem_of_filter. split; [done|]. by apply elem_of_map_to_list.
    + right. exists (name, pct). split; [done|]. by apply elem_of_map_to_list.
Qed.

(** X19.  The log reads "No adjustments yet." exactly when it has no line,
    which is when every entry of [category_adjustments] is 0 and
    [fund_adjustments] is empty. *)
Theorem no_adjustments_yet_exactly (ca fa : gmap string Qc) :
  (no_adjustments_yet ca fa = true ↔ (adjustment_log ca fa).1 = []) ∧
  (no_adjustments_yet ca fa = true
   ↔ (∀ c v, ca !! c = Some v → v = 0) ∧ fa = ∅).
Proof.
  split; [|apply no_adjustments_yet_iff].
  unfold no_adjustments_yet. rewrite adjustment_log_eq. cbn [fst snd].
  rewrite negb_true_iff, orb_false_iff, !bool_decide_eq_false. split.
  - intros [Hca Hfa].
    destruct (filter _ (map_to_list ca)); [|by destruct Hca].
    destruct (map_to_list fa); [done|by destruct Hfa].
  - intros [Hca Hfa]%app_eq_nil.
    apply fmap_nil_inv in Hca. apply fmap_nil_inv in Hfa.
    rewrite Hca, Hfa. by split; intros [].
Qed.

(** X20.  When the log reads "No adjustments yet.", every row resolves to
    0% and is added to the totals with its own value. *)
Theorem no_adjustments_yet_keeps_values (ca fa : gmap string Qc) (r : grow) :
  no_adjustments_yet ca fa = true →
  effective_pct ca fa (g_category r) (g_fund r) = 0 ∧
  adjusted_value ca fa r = g_approp_m r.
Proof.
  intros [Hca ->]%no_adjustments_yet_iff.
  assert (effective_pct ca ∅ (g_category r) (g_fund r) = 0) as Hpct.
  { unfold effective_pct. rewrite lookup_empty. cbn.
    destruct (ca !! g_category r) as [v|] eqn:Hc; [|done].
    by apply (Hca (g_category r)). }
  split; [done|]. unfold adjusted_value. rewrite Hpct. unfold Qcdiv. ring.
Qed.

Lemma no_adjustments_yet_keeps_values_witness :
  effective_pct (category_adjustments ∅ scenario_gdf)
                (fund_adjustments ∅ scenario_gdf) "General Funds" "F1" = 0 ∧
  adjusted_value (category_adjustments ∅ scenario_gdf)
                 (fund_adjustments ∅ scenario_gdf)
                 (GRow "General Funds" "F1" (Qc_of_Z 100))
  = Qc_of_Z 100.
Proof.
  apply (no_adjustments_yet_keeps_values
           (category_adjustments ∅ scenario_gdf)
           (fund_adjustments ∅ scenario_gdf)
           (GRow "General Funds" "F1" (Qc_of_Z 100))).
  vm_compute. reflexivity.
Defined.

(** X21.  In a run of the script the log never shows 0%: every line carries
    a percentage that is not 0, in green exactly when it is above 0 and in
    red exactly when it is below 0.  The loop over [fund_adjustments] has no
    test for 0 of its own; the widget loops store no 0 there. *)
Theorem log_lines_have_a_sign (st : session) (gdf : list grow) (line : log_line) :
  line ∈ (adjustment_log (category_adjustments st gdf)
                         (fund_adjustments st gdf)).1 →
  log_pct line ≠ 0 ∧
  (log_color line = green ↔ 0 < log_pct line) ∧
  (log_color line = red ↔ log_pct line < 0).
Proof.
  rewrite adjustment_log_eq. cbn [fst].
  rewrite elem_of_app, !list_elem_of_fmap. intros Hline.
  assert (log_color line = pct_color (log_pct line) ∧ log_pct line ≠ 0)
    as [Hcol Hnz].
  { destruct Hline
      as [([c v] & -> & [Hv Hin]%list_elem_of_filter)|([f v] & -> & Hin)];
      (split; [done|]); [done|].
    apply elem_of_map_to_list in Hin. by eapply fund_adjustments_nonzero. }
  split; [done|]. rewrite Hcol. unfold pct_color.
  destruct (decide (0 < log_pct line)) as [Hpos|Hneg].
  - split; [done|]. split; [done|]. intros Hlt.
    by destruct (Qclt_not_le _ _ Hpos (Qclt_le_weak _ _ Hlt)).
  - split; [done|]. split; [|done]. intros _.
    destruct (Qclt_le_dec (log_pct line) 0) as [|Hle]; [done|].
    destruct (Qcle_lt_or_eq _ _ Hle); [done|congruence].
Qed.

Lemma log_lines_have_a_sign_witness :
  Qc_of_Z (-20) ≠ 0 ∧
  (red = green ↔ 0 < Qc_of_Z (-20)) ∧
  (red = red ↔ Qc_of_Z (-20) < 0).
Proof.
  apply (log_lines_have_a_sign then_fund_down_20 scenario_gdf
           (LogLine "F1" red (Qc_of_Z (-20)))).
  rewrite adjustment_log_eq. cbn [fst]. apply elem_of_app. right.
  apply list_elem_of_fmap. exists ("F1"%string, Qc_of_Z (-20)).
  split; [reflexivity|]. apply elem_of_map_to_list. reflexivity.
Defined.

(** X22.  When every widget holds 0% or nothing, as after "Reset All
    Adjustments", the log reads "No adjustments yet.": the entries the
    category loops store are all 0 and no fund entry is stored. *)
Theorem zero_session_logs_nothing (st : session) (gdf : list grow) :
  (∀ k v, st !! k = Some v → v = 0) →
  no_adjustments_yet (category_adjustments st gdf) (fund_adjustments st gdf)
  = true.
Proof.
  intros Hst. apply no_adjustments_yet_iff. split.
  - intros c v. rewrite category_adjustments_lookup.
    assert (∀ k, number_input st 0 k = 0) as Hzero
      by (intros k; by apply number_input_all_zero).
    assert (spend_all st = 0) as ->.
    { unfold spend_all. replace (default 0 (st !! "spend_all"%string))
        with (number_input st 0 "spend_all") by done. by rewrite !Hzero. }
    assert (rev_all st = 0) as ->.
    { unfold rev_all. replace (default 0 (st !! "rev_all"%string))
        with (number_input st 0 "rev_all") by done. by rewrite !Hzero. }
    repeat case_decide; [| |done]; intros [= <-]; apply Hzero.
  - apply map_empty. intros f.
    destruct (fund_adjustments st gdf !! f) as [v|] eqn:Hfa; [|done].
    exfalso. pose proof (fund_adjustments_nonzero _ _ _ _ Hfa) as Hv.
    rewrite fund_adjustments_lookup in Hfa. apply last_Some_elem_of in Hfa.
    apply elem_of_all_writes in Hfa
      as [(c' & _ & _ & -> & _)|(c' & _ & _ & -> & _)];
      by rewrite number_input_all_zero in Hv.
Qed.

Lemma zero_session_logs_nothing_witness :
  no_adjustments_yet (category_adjustments (reset then_fund_down_20) scenario_gdf)
                     (fund_adjustments (reset then_fund_down_20) scenario_gdf)
  = true.
Proof.
  apply (zero_session_logs_nothing (reset then_fund_down_20) scenario_gdf).
  intros k v Hk. unfold reset in Hk. by rewrite lookup_empty in Hk.
Defined.

(** X24.  A group whose amounts are all NaN has the value 0 in the grouped
    frame: the sum skips them and starts from 0. *)
Theorem group_of_nan_sums_to_zero (df : list row) (r : grow) :
  r ∈ groupby_sum df →
  (∀ x, x ∈ df → category x = g_category r → fund x = g_fund r →
        approp_m x = None) →
  g_approp_m r = 0.
Proof.
  intros [_ ->]%elem_of_groupby_sum Hnan. unfold group_sum.
  rewrite nansum_default, <-list_fmap_compose. apply Qsum_fmap_zero.
  intros x [Hk Hx]%list_elem_of_filter. unfold compose.
  injection Hk as Hc Hf. by rewrite (Hnan x Hx Hc Hf).
Qed.

Lemma group_of_nan_sums_to_zero_witness :
  g_approp_m
    (GRow "General Funds" "F9"
       (group_sum (load_data read_numeral sheet_with_text)
                  ("General Funds"%string, "F9"%string))) = 0.
Proof.
  apply (group_of_nan_sums_to_zero (load_data read_numeral sheet_with_text)).
  - apply elem_of_groupby_sum. split; [|reflexivity].
    eexists. split; [right; left|reflexivity].
  - intros x Hx _ Hf.
    change (x ∈ [Row "General Funds" "F1" (Some (Qc_of_Z 100000000))
                     (Some (Qc_of_Z 100000000 / million));
                 Row "General Funds" "F9" None None]) in Hx.
    repeat (apply elem_of_cons in Hx as [->|Hx]);
      [discriminate|reflexivity|by apply elem_of_nil in Hx].
Defined.
